(** * simple-upload: the upload finalizer of [main.go]

    A shallow embedding of the filename sanitizer, the collision resolver and
    the completed-upload loop of [main.go], with the properties the
    specification states about them.

    Go strings are immutable byte sequences; they are modelled by [string]
    (a list of 8-bit [ascii] characters).  The Go library functions the program
    calls ([strings.ReplaceAll], [strings.Trim], [strings.TrimSuffix],
    [filepath.Ext], [fmt.Sprintf], [os.Stat], [os.Rename], [slog.*]) are
    modelled after their documented behaviour on the arguments the program
    passes to them. *)

From Stdlib Require Import ZArith Lia Ascii String.
From stdpp Require Import base option list gmap sets strings pretty.

(** ** Go library functions on strings *)

(** [s[n:]] *)
Fixpoint str_drop (n : nat) (s : string) : string :=
  match n, s with
  | O, _ => s
  | S _, "" => ""
  | S k, String _ s' => str_drop k s'
  end.

(** [s[:n]] *)
Fixpoint str_take (n : nat) (s : string) : string :=
  match n, s with
  | O, _ => ""
  | S _, "" => ""
  | S k, String c s' => String c (str_take k s')
  end.

(** [strings.HasPrefix(s, prefix)] *)
Fixpoint strings_HasPrefix (s prefix : string) {struct prefix} : bool :=
  match prefix, s with
  | "", _ => true
  | String _ _, "" => false
  | String a p, String b s' => Ascii.eqb a b && strings_HasPrefix s' p
  end.

(** [strings.HasSuffix(s, suffix)]:
    [len(s) >= len(suffix) && s[len(s)-len(suffix):] == suffix] *)
Definition strings_HasSuffix (s suffix : string) : bool :=
  (String.length suffix <=? String.length s)%nat
  && String.eqb (str_drop (String.length s - String.length suffix) s) suffix.

(** [strings.TrimSuffix(s, suffix)] *)
Definition strings_TrimSuffix (s suffix : string) : string :=
  if strings_HasSuffix s suffix
  then str_take (String.length s - String.length suffix) s
  else s.

(** [strings.Contains(s, substr)] *)
Fixpoint strings_Contains (s substr : string) : bool :=
  strings_HasPrefix s substr
  || match s with
     | "" => false
     | String _ s' => strings_Contains s' substr
     end.

(** The replacement loop of [strings.Replace] for a non-empty [old]: the
    leftmost occurrence is replaced and the scan resumes behind it, so the
    replaced occurrences do not overlap.  [skip] counts the bytes of an
    occurrence that are still to be passed over. *)
Fixpoint replace_from (skip : nat) (old new s : string) : string :=
  match s with
  | "" => ""
  | String c s' =>
      match skip with
      | S k => replace_from k old new s'
      | O =>
          if strings_HasPrefix s old
          then new +:+ replace_from (String.length old - 1) old new s'
          else String c (replace_from 0 old new s')
      end
  end.

(** [strings.ReplaceAll(s, old, new)].  The program only passes non-empty
    patterns; the rune-wise insertion Go performs for an empty [old] is not
    modelled and [s] is returned for it. *)
Definition strings_ReplaceAll (s old new : string) : string :=
  if String.eqb old new then s
  else match old with
       | "" => s
       | String _ _ => replace_from 0 old new s
       end.

(** Membership of a byte in an ASCII cutset. *)
Fixpoint in_cutset (cutset : string) (c : ascii) : bool :=
  match cutset with
  | "" => false
  | String d cs => Ascii.eqb c d || in_cutset cs c
  end.

(** [strings.TrimLeft(s, cutset)] for an ASCII cutset. *)
Fixpoint strings_TrimLeft (s cutset : string) : string :=
  match s with
  | "" => ""
  | String c s' => if in_cutset cutset c then strings_TrimLeft s' cutset else s
  end.

(** [strings.TrimRight(s, cutset)] for an ASCII cutset. *)
Fixpoint strings_TrimRight (s cutset : string) : string :=
  match s with
  | "" => ""
  | String c s' =>
      match strings_TrimRight s' cutset with
      | "" => if in_cutset cutset c then "" else String c ""
      | t => String c t
      end
  end.

(** [strings.Trim(s, cutset)]: the right end is trimmed first, then the left. *)
Definition strings_Trim (s cutset : string) : string :=
  strings_TrimLeft (strings_TrimRight s cutset) cutset.

(** [os.IsPathSeparator] (Unix). *)
Definition os_IsPathSeparator (c : ascii) : bool := Ascii.eqb c "/"%char.

(** The loop of [filepath.Ext]:
    [for i := len(path) - 1; i >= 0 && !os.IsPathSeparator(path[i]); i--],
    with [n = i + 1]. *)
Fixpoint Ext_loop (path : string) (n : nat) : string :=
  match n with
  | O => ""
  | S i =>
      match String.get i path with
      | None => ""
      | Some c =>
          if os_IsPathSeparator c then ""
          else if Ascii.eqb c "."%char then str_drop i path
          else Ext_loop path i
      end
  end.

(** [filepath.Ext(path)] *)
Definition filepath_Ext (path : string) : string :=
  Ext_loop path (String.length path).

(** ** Machine integers *)

(** Go's [int] on a 64-bit platform: two's complement, wrapping silently. *)
Definition int_wrap (z : Z) : Z := ((z + 2 ^ 63) mod 2 ^ 64 - 2 ^ 63)%Z.

Definition int_max : Z := (2 ^ 63 - 1)%Z.

(** [i++] *)
Definition int_incr (i : Z) : Z := int_wrap (i + 1).

(** [fmt.Sprintf("%s_%d%s", base, i, ext)] *)
Definition Sprintf_s_d_s (base : string) (i : Z) (ext : string) : string :=
  base +:+ "_" +:+ pretty i +:+ ext.

(** ** [sanitizeFilename] *)

Definition quote : string := String (ascii_of_nat 34) "".

Definition unsafe : list string :=
  ["/"; "\"; ".."; ":"; "*"; "?"; quote; "<"; ">"; "|"].

Definition default_name : string := "unkown-file".

(** [for _, char := range unsafe { sanitized = strings.ReplaceAll(...) }] *)
Definition replace_unsafe (filename : string) : string :=
  fold_left (fun sanitized char => strings_ReplaceAll sanitized char "_")
            unsafe filename.

Definition sanitizeFilename (filename : string) : string :=
  let sanitized := replace_unsafe filename in
  let sanitized := strings_Trim sanitized " ." in
  if String.eqb sanitized "" then default_name else sanitized.

(** ** The world of the finalizer *)

(** Go's [error] values, as far as the program tells them apart:
    [os.IsNotExist] recognises the first. *)
Inductive error : Type :=
  | ErrNotExist
  | ErrOther (msg : string).

Definition error_string (e : error) : string :=
  match e with
  | ErrNotExist => "no such file or directory"
  | ErrOther msg => msg
  end.

(** [os.IsNotExist(err)]; [None] is Go's [nil]. *)
Definition os_IsNotExist (err : option error) : bool :=
  match err with
  | Some ErrNotExist => true
  | _ => false
  end.

Inductive Level : Type := LevelInfo | LevelWarn | LevelError.

(** One [slog] record: level, message, key/value attributes. *)
Record LogRecord : Type := mkLog {
  log_level : Level;
  log_msg : string;
  log_attrs : list (string * string)
}.

(** The file-system calls the program makes. *)
Inductive Syscall : Type :=
  | SysStat (path : string)
  | SysRename (oldpath newpath : string).

(** The state the finalizer reads and writes.
    - [fs]: the files, path to contents.  tusd's file store keeps an upload
      [id] in the uploads directory as the data file [id] (the Content Store
      artifact) and the record [id.info] (the Metadata Store record).
    - [stat_failure]: the paths the operating system cannot look up, whether
      a file is there or not (a name that is too long, a NUL byte, a
      directory that may not be searched), each with the message of the
      error [os.Stat] returns for it; that error is not a not-exist error.
    - [rename_errors]: what the operating system answers to the coming
      [os.Rename] calls, [Some e] for a failure with error [e].
    - [calls]: the file-system calls made so far.
    - [logs]: the log records written so far. *)
Record World : Type := mkWorld {
  fs : gmap string string;
  stat_failure : string → option string;
  rename_errors : list (option error);
  calls : list Syscall;
  logs : list LogRecord
}.

Definition record_call (c : Syscall) (w : World) : World :=
  mkWorld (fs w) (stat_failure w) (rename_errors w) (calls w ++ [c]) (logs w).

(** Computations over the world; [None] is a probe loop that was still
    running when the fuel ran out. *)
Definition M (A : Type) : Type := World → option (A * World).

#[global] Instance M_ret : MRet M := λ A a w, Some (a, w).
#[global] Instance M_bind : MBind M := λ A B k m w,
  match m w with
  | Some (a, w') => k a w'
  | None => None
  end.

Definition out_of_fuel {A : Type} : M A := λ _, None.

(** [filepath.Join(dir, name)] for a directory path [dir] that is in the
    clean form [filepath.Clean] gives it and names a directory other than
    the root and the current one ([uploads] for the default [./uploads]),
    and a single path element [name] other than [.] and [..]: for these
    [filepath.Join] has nothing to clean and returns [dir/name]. *)
Definition filepath_Join (dir name : string) : string := dir +:+ "/" +:+ name.

(** The error result of [os.Stat(path)]: the error of the operating system
    for a path it cannot look up, [nil] for a file that is there, and a
    not-exist error for one that is not. *)
Definition stat_result (w : World) (path : string) : option error :=
  match stat_failure w path with
  | Some msg => Some (ErrOther msg)
  | None =>
      match fs w !! path with
      | Some _ => None
      | None => Some ErrNotExist
      end
  end.

(** [os.Stat(path)], its error result. *)
Definition os_Stat (path : string) : M (option error) := λ w,
  Some (stat_result w path, record_call (SysStat path) w).

(** The answer of the operating system to the next [os.Rename]. *)
Definition next_rename_error (w : World) : option error :=
  match rename_errors w with
  | e :: _ => e
  | [] => None
  end.

(** [os.Rename(oldpath, newpath)]: fails as the operating system decides, and
    when [oldpath] is missing; a failed rename changes no file. *)
Definition os_Rename (oldpath newpath : string) : M (option error) := λ w,
  let outcome :=
    match next_rename_error w, fs w !! oldpath with
    | Some e, _ => (Some e, fs w)
    | None, None => (Some ErrNotExist, fs w)
    | None, Some data => (None, <[newpath := data]> (delete oldpath (fs w)))
    end in
  Some (outcome.1,
        mkWorld outcome.2 (stat_failure w) (tail (rename_errors w))
                (calls w ++ [SysRename oldpath newpath]) (logs w)).

Definition add_log (r : LogRecord) (w : World) : World :=
  mkWorld (fs w) (stat_failure w) (rename_errors w) (calls w) (logs w ++ [r]).

Definition slog (lvl : Level) (msg : string) (attrs : list (string * string))
  : M unit := λ w, Some (tt, add_log (mkLog lvl msg attrs) w).

Definition slog_Info := slog LevelInfo.
Definition slog_Warn := slog LevelWarn.
Definition slog_Error := slog LevelError.

(** ** [getUniqueFilename] *)

(** [for i := 1; ; i++ { ... }], started at [i]. *)
Fixpoint probe (fuel : nat) (dir base ext : string) (i : Z) : M string :=
  match fuel with
  | O => out_of_fuel
  | S fuel' =>
      let newFilename := Sprintf_s_d_s base i ext in
      let newPath := filepath_Join dir newFilename in
      err ← os_Stat newPath;
      if os_IsNotExist err then mret newFilename
      else probe fuel' dir base ext (int_incr i)
  end.

Definition getUniqueFilename (fuel : nat) (dir filename : string) : M string :=
  let sanitized := sanitizeFilename filename in
  let targetPath := filepath_Join dir sanitized in
  err ← os_Stat targetPath;
  if os_IsNotExist err then mret sanitized
  else
    let ext := filepath_Ext sanitized in
    let base := strings_TrimSuffix sanitized ext in
    probe fuel dir base ext 1.

(** ** [handleCompletedUploads] *)

(** [tusd.FileInfo], the fields the program reads. *)
Record FileInfo : Type := mkFileInfo {
  ID : string;
  MetaData : gmap string string
}.

(** [tusd.HookEvent] *)
Record HookEvent : Type := mkHookEvent { Upload : FileInfo }.

Section Finalizer.

(** The global [uploadsDir]. *)
Variable uploadsDir : string.

(** The body of the [for] loop, for the received [event]. *)
Definition handleCompletedUpload (fuel : nat) (event : HookEvent) : M unit :=
  (* a missing key of a Go map reads as the zero value *)
  let originalFilename := default "" (MetaData (Upload event) !! "filename") in
  let uploadID := ID (Upload event) in
  slog_Info "Upload finished"
    [("upload_id", uploadID); ("filename", originalFilename)];;
  if String.eqb originalFilename "" then
    slog_Warn "No filename in metadata, keeping file with upload ID"
      [("upload_id", uploadID)]
  else
    let oldPath := filepath_Join uploadsDir uploadID in
    finalFilename ← getUniqueFilename fuel uploadsDir originalFilename;
    let newPath := filepath_Join uploadsDir finalFilename in
    err ← os_Stat oldPath;
    match err with
    | Some _ =>
        slog_Warn "Upload file not found for renaming"
          [("upload_id", uploadID); ("filename", originalFilename);
           ("path", oldPath)]
    | None =>
        err ← os_Rename oldPath newPath;
        match err with
        | Some e =>
            slog_Error "Failed to rename uploaded file"
              [("upload_id", uploadID);
               ("original_filename", originalFilename);
               ("final_filename", finalFilename);
               ("error", error_string e)]
        | None =>
            slog_Info "File renamed successfully"
              [("from", uploadID);
               ("original_filename", originalFilename);
               ("final_filename", finalFilename)]
        end
    end.

(** The loop [for { event := <-handler.CompleteUploads; ... }] run over the
    events the channel delivers, in the order it delivers them. *)
Fixpoint handleCompletedUploads (fuel : nat) (events : list HookEvent)
  : M unit :=
  match events with
  | [] => mret tt
  | event :: rest =>
      handleCompletedUpload fuel event;;
      handleCompletedUploads fuel rest
  end.

(** The Metadata Store record of the upload [id]. *)
Definition infoPath (id : string) : string :=
  filepath_Join uploadsDir (id +:+ ".info").

End Finalizer.

(** ** The upload engine of the specification *)

Module Engine.

Inductive State : Type := Created | InProgress | Completed | Terminated.

Inductive Failure : Type :=
  | InvalidArgument | NotFound | Conflict | Busy | InvalidState
  | StorageFailure.

(** Modelled from the spec: the Upload record of section 3.  The program
    hands uploads to the tusd library, whose sources are not among the
    program's; the record follows the specification's data model (the
    timestamps, which no operation below reads, are left out). *)
Record Upload : Type := mkUpload {
  declaredLength : option nat;
  offset : nat;
  metadata : gmap string string;
  storageLocator : string;
  state : State
}.

(** Modelled from the spec: the stores of sections 4.1, 4.2 and the queue of
    4.5, which the tusd library implements.  The Content Store maps a
    locator to the bytes received, and its recorded offset for a locator is
    their number. *)
Record Store : Type := mkStore {
  contents : gmap string (list Byte.byte);
  uploads : gmap string Upload;
  completions : list (string * gmap string string)
}.

Definition recorded_offset (cs : gmap string (list Byte.byte))
           (locator : string) : nat :=
  length (default [] (cs !! locator)).

(** Modelled from the spec: [append(locator, atOffset, bytes)] of section
    4.1, missing from the sources (tusd's file store): a write whose
    [atOffset] is not the recorded offset is rejected, otherwise the bytes
    are added and the new offset returned. *)
Definition content_append (locator : string) (atOffset : nat)
           (bytes : list Byte.byte) (cs : gmap string (list Byte.byte))
  : Failure + (nat * gmap string (list Byte.byte)) :=
  if decide (atOffset = recorded_offset cs locator) then
    let data := default [] (cs !! locator) ++ bytes in
    inr (length data, <[locator := data]> cs)
  else inl Conflict.

(** Modelled from the spec: [Append(id, expectedOffset, bytes)] of section
    4.4, missing from the sources (tusd's request handler), in the order the
    specification lists its checks; an unknown [id] is [NotFound]
    (section 7).  The per-upload lock is taken and released inside the
    operation and is free whenever a sequential caller starts it. *)
Definition Append (id : string) (expectedOffset : nat)
           (bytes : list Byte.byte) (st : Store) : (Failure + nat) * Store :=
  match uploads st !! id with
  | None => (inl NotFound, st)
  | Some u =>
      if negb (expectedOffset =? offset u)%nat then (inl Conflict, st)
      else
        match state u with
        | Completed | Terminated => (inl InvalidState, st)
        | Created | InProgress =>
            match content_append (storageLocator u) (offset u) bytes
                                 (contents st) with
            | inl e => (inl e, st)
            | inr (newOffset, cs') =>
                let completed :=
                  bool_decide (declaredLength u = Some newOffset) in
                let u' :=
                  mkUpload (declaredLength u) newOffset (metadata u)
                           (storageLocator u)
                           (if completed then Completed else InProgress) in
                (inr newOffset,
                 mkStore cs' (<[id := u']> (uploads st))
                         (if completed
                          then completions st ++ [(id, metadata u)]
                          else completions st))
            end
        end
  end.

End Engine.

(** ** Notions used in the statements *)

(** Occurrence of a single byte. *)
Fixpoint str_mem (c : ascii) (s : string) : bool :=
  match s with
  | "" => false
  | String d s' => Ascii.eqb d c || str_mem c s'
  end.

(** Byte-wise image of a string. *)
Fixpoint str_map (f : ascii → ascii) (s : string) : string :=
  match s with
  | "" => ""
  | String c s' => String (f c) (str_map f s')
  end.

Definition subst_byte (c n : ascii) (x : ascii) : ascii :=
  if Ascii.eqb c x then n else x.

Definition str_head (s : string) : option ascii :=
  match s with
  | "" => None
  | String c _ => Some c
  end.

Fixpoint str_last (s : string) : option ascii :=
  match s with
  | "" => None
  | String c s' =>
      match s' with
      | "" => Some c
      | String _ _ => str_last s'
      end
  end.

(** No byte of [cutset] at the end [o] of a string. *)
Definition clear_of (cutset : string) (o : option ascii) : Prop :=
  ∀ c, o = Some c → in_cutset cutset c = false.

(** The [i]-th name the probe loop of [getUniqueFilename] tries for the
    sanitized name [name]. *)
Definition candidate (name : string) (i : Z) : string :=
  Sprintf_s_d_s (strings_TrimSuffix name (filepath_Ext name)) i
                (filepath_Ext name).

(** The file [name] exists in the directory [dir]. *)
Definition exists_in (w : World) (dir name : string) : Prop :=
  is_Some (fs w !! filepath_Join dir name).

(** The file-system calls of a probe for [base], [ext] from counter [i]
    over [n] rounds. *)
Definition probe_calls (dir base ext : string) (i : Z) (n : nat)
  : list Syscall :=
  (λ j : nat, SysStat (filepath_Join dir (Sprintf_s_d_s base (i + Z.of_nat j) ext)))
    <$> seq 0 n.

(** [edge_ok cutset o]: the end [o] of a string carries no byte of [cutset]
    (the decidable form of [clear_of]). *)
Definition edge_ok (cutset : string) (o : option ascii) : bool :=
  match o with
  | Some c => negb (in_cutset cutset c)
  | None => true
  end.

(** Every byte of [s] is in [cutset]. *)
Fixpoint all_in (cutset s : string) : bool :=
  match s with
  | "" => true
  | String c s' => in_cutset cutset c && all_in cutset s'
  end.

(** What the loop over [unsafe] does to a single byte. *)
Definition placeholder_byte (c : ascii) : ascii :=
  if in_cutset "/\:*?<>|" c || Ascii.eqb c (ascii_of_nat 34) then "_"%char
  else c.

(** [event.Upload.MetaData["filename"]] *)
Definition originalFilename_of (event : HookEvent) : string :=
  default "" (MetaData (Upload event) !! "filename").

(** The log records of the finalizer. *)
Definition log_finished (uploadID originalFilename : string) : LogRecord :=
  mkLog LevelInfo "Upload finished"
        [("upload_id", uploadID); ("filename", originalFilename)].

Definition log_no_filename (uploadID : string) : LogRecord :=
  mkLog LevelWarn "No filename in metadata, keeping file with upload ID"
        [("upload_id", uploadID)].

Definition log_not_found (uploadID originalFilename oldPath : string)
  : LogRecord :=
  mkLog LevelWarn "Upload file not found for renaming"
        [("upload_id", uploadID); ("filename", originalFilename);
         ("path", oldPath)].

Definition log_rename_failed (uploadID originalFilename finalFilename : string)
           (e : error) : LogRecord :=
  mkLog LevelError "Failed to rename uploaded file"
        [("upload_id", uploadID); ("original_filename", originalFilename);
         ("final_filename", finalFilename); ("error", error_string e)].

Definition log_renamed (uploadID originalFilename finalFilename : string)
  : LogRecord :=
  mkLog LevelInfo "File renamed successfully"
        [("from", uploadID); ("original_filename", originalFilename);
         ("final_filename", finalFilename)].

(** A file-system call that only looks. *)
Definition is_stat (c : Syscall) : bool :=
  match c with
  | SysStat _ => true
  | SysRename _ _ => false
  end.

(** The records of completed uploads among log records. *)
Definition finished_records (l : list LogRecord) : list LogRecord :=
  filter (λ r, log_msg r = "Upload finished") l.

(** A path element of more than 255 bytes; [run] is the length of the
    element that [path] continues. *)
Fixpoint element_too_long (run : nat) (path : string) : bool :=
  match path with
  | "" => 255 <? run
  | String c path' =>
      if Ascii.eqb c "/" then (255 <? run) || element_too_long 0 path'
      else element_too_long (S run) path'
  end.

(** The paths a Linux file system refuses to look up for their form alone:
    those with a NUL byte and those with an element of more than 255
    bytes. *)
Definition name_limits (path : string) : option string :=
  if str_mem "000" path then Some "invalid argument"
  else if element_too_long 0 path then Some "file name too long"
  else None.

(** [n] times the byte [c]. *)
Fixpoint str_repeat (c : ascii) (n : nat) : string :=
  match n with
  | O => ""
  | S n' => String c (str_repeat c n')
  end.

(** A world with the given files on a file system with the limits above, in
    which no rename fails and nothing has been called or logged yet. *)
Definition world_of (files : gmap string string) : World :=
  mkWorld files name_limits [] [] [].

(** A file name of 255 bytes, the longest a Linux file system takes, and one
    of 256 bytes. *)
Definition name_255 : string := str_repeat "a" 255.
Definition name_256 : string := str_repeat "a" 256.

(** An uploads directory that holds one file, named [name_255]. *)
Definition world_255 : World :=
  world_of {[ filepath_Join "uploads" name_255 := "first" ]}.

(** [os.Stat] can look up the name [name] and the candidates the probe loop
    can reach in the world [w]. *)
Definition stat_clear (w : World) (dir name : string) : Prop :=
  stat_failure w (filepath_Join dir name) = None ∧
  ∀ i : Z, (1 ≤ i ≤ Z.of_nat (size (fs w)) + 1)%Z →
    stat_failure w (filepath_Join dir (candidate name i)) = None.

(** The completion event of the upload [id] with metadata [filename]. *)
Definition event_of (id filename : string) : HookEvent :=
  mkHookEvent (mkFileInfo id {[ "filename" := filename ]}).

(** An engine store with one upload [X] of declared length 10, of which 5
    bytes have been received. *)
Definition store_example : Engine.Store :=
  Engine.mkStore
    {[ "X" := [Byte.x68; Byte.x65; Byte.x6c; Byte.x6c; Byte.x6f] ]}
    {[ "X" := Engine.mkUpload (Some 10) 5 {[ "filename" := "a.txt" ]} "X"
                              Engine.InProgress ]}
    [].

(** ** [altSvcMiddleware] *)

(** [http.Request], the field the middleware reads. *)
Record Request : Type := mkRequest {
  ProtoMajor : Z;
  URLPath : string
}.

(** The state behind an [http.ResponseWriter]: the header map (canonical key
    to values), and the status and body written so far. *)
Record ResponseWriter : Type := mkResponseWriter {
  Header : gmap string (list string);
  status : option Z;
  body : string
}.

(** [http.Handler]: [ServeHTTP(w, r)] as a function on the writer's state. *)
Definition Handler : Type := ResponseWriter → Request → ResponseWriter.

(** [w.Header().Set(key, value)] for a key in canonical form: the values of
    the key are replaced by the single [value]. *)
Definition Header_Set (key value : string) (w : ResponseWriter)
  : ResponseWriter :=
  mkResponseWriter (<[key := [value]]> (Header w)) (status w) (body w).

(** [fmt.Sprintf(`h3=":%d"; ma=300`, port)] *)
Definition Sprintf_alt_svc (port : Z) : string :=
  "h3=" +:+ quote +:+ ":" +:+ pretty port +:+ quote +:+ "; ma=300".

Definition altSvcMiddleware (next : Handler) (port : Z) : Handler :=
  λ w r,
    let w :=
      if (ProtoMajor r <? 3)%Z
      then Header_Set "Alt-Svc" (Sprintf_alt_svc port) w
      else w in
    next w r.

(** ** Further notions used in the statements *)

(** A handler that writes nothing. *)
Definition silent_handler : Handler := λ w _, w.

(** The file-system calls that rename. *)
Definition renames (l : list Syscall) : list Syscall :=
  filter (λ c, is_stat c = false) l.

(** A rename of the data file of one of the [events] to a sanitized name of
    the directory [dir]. *)
Definition promotes (dir : string) (events : list HookEvent) (c : Syscall)
  : Prop :=
  ∃ (event : HookEvent) (name : string),
    event ∈ events ∧
    c = SysRename (filepath_Join dir (ID (Upload event)))
                  (filepath_Join dir name) ∧
    sanitizeFilename name = name.

(** * Properties *)

(** ** The definitions on concrete inputs *)

Example ReplaceAll_overlapping : strings_ReplaceAll "....." ".." "_" = "__.".
Proof. reflexivity. Qed.

Example Trim_both_ends : strings_Trim " ..a. b. ." " ." = "a. b".
Proof. reflexivity. Qed.

Example Ext_last_dot : filepath_Ext "archive.tar.gz" = ".gz".
Proof. reflexivity. Qed.

Example Ext_stops_at_separator : filepath_Ext "a.b/c" = "".
Proof. reflexivity. Qed.

Example TrimSuffix_ext : strings_TrimSuffix "archive.tar.gz" ".gz" = "archive.tar".
Proof. reflexivity. Qed.

Example Sprintf_counter : Sprintf_s_d_s "report" 12 ".txt" = "report_12.txt".
Proof. vm_compute. reflexivity. Qed.

Example int_incr_wraps : int_incr int_max = (- 2 ^ 63)%Z.
Proof. reflexivity. Qed.

Example sanitizeFilename_mixed :
  sanitizeFilename " a..b\c:d*e?f<g>h|i. " = "a_b_c_d_e_f_g_h_i".
Proof. reflexivity. Qed.

Example sanitizeFilename_three_dots : sanitizeFilename "..." = "_".
Proof. reflexivity. Qed.

Example sanitizeFilename_blank : sanitizeFilename " . . " = default_name.
Proof. reflexivity. Qed.

(** Three completed uploads in a directory that holds [report.txt]: two more
    [report.txt], and one whose file is gone. *)
Example finalizer_run :
  ∃ w',
    handleCompletedUploads "uploads" 4
      [event_of "A" "report.txt"; event_of "B" "report.txt";
       event_of "C" "notes.txt"]
      (world_of {[ "uploads/report.txt" := "first"; "uploads/A" := "second";
                   "uploads/B" := "third" ]})
    = Some (tt, w') ∧
    fs w' = {[ "uploads/report.txt" := "first";
               "uploads/report_1.txt" := "second";
               "uploads/report_2.txt" := "third" ]} ∧
    calls w' = [SysStat "uploads/report.txt"; SysStat "uploads/report_1.txt";
                SysStat "uploads/A";
                SysRename "uploads/A" "uploads/report_1.txt";
                SysStat "uploads/report.txt"; SysStat "uploads/report_1.txt";
                SysStat "uploads/report_2.txt"; SysStat "uploads/B";
                SysRename "uploads/B" "uploads/report_2.txt";
                SysStat "uploads/notes.txt"; SysStat "uploads/C"] ∧
    log_msg <$> logs w' =
      ["Upload finished"; "File renamed successfully";
       "Upload finished"; "File renamed successfully";
       "Upload finished"; "Upload file not found for renaming"].
Proof.
  eexists. split; [vm_compute; reflexivity |].
  split_and!; vm_compute; reflexivity.
Qed.

(** ** Strings *)

#[local] Arguments String.append !_ _ / : simpl nomatch.
#[local] Arguments Ascii.eqb : simpl never.

Lemma str_app_nil_r (s : string) : s +:+ "" = s.
Proof. induction s as [|c s IH]; simpl; [done | by rewrite IH]. Qed.

Lemma str_app_assoc (a b c : string) : (a +:+ b) +:+ c = a +:+ b +:+ c.
Proof. induction a as [|x a IH]; simpl; [done | by rewrite IH]. Qed.

Lemma str_app_length (a b : string) :
  String.length (a +:+ b) = String.length a + String.length b.
Proof. induction a as [|x a IH]; simpl; [done | by rewrite IH]. Qed.

Lemma str_app_inv_tail (a b c : string) : a +:+ c = b +:+ c → a = b.
Proof.
  revert b. induction a as [|x a IH]; intros [|y b] H; simpl in *.
  - done.
  - apply (f_equal String.length) in H. simpl in H.
    rewrite str_app_length in H. lia.
  - apply (f_equal String.length) in H. simpl in H.
    rewrite str_app_length in H. lia.
  - injection H as -> H. f_equal. by apply IH.
Qed.

Lemma str_eqb_eq (a b : string) : String.eqb a b = true ↔ a = b.
Proof. apply String.eqb_eq. Qed.

Lemma str_eqb_neq (a b : string) : String.eqb a b = false ↔ a ≠ b.
Proof. apply String.eqb_neq. Qed.

Lemma HasPrefix_spec (s p : string) :
  strings_HasPrefix s p = true ↔ ∃ t, s = p +:+ t.
Proof.
  revert s. induction p as [|a p IH]; intros s; simpl.
  - split; [intros _; by exists s | done].
  - destruct s as [|b s]; [split; [done | by intros [t Ht]] |].
    rewrite andb_true_iff, Ascii.eqb_eq, IH. split.
    + intros [-> [t ->]]. by exists t.
    + intros [t Ht]. injection Ht as -> ->. split; [done | by exists t].
Qed.

Lemma Contains_spec (s sub : string) :
  strings_Contains s sub = true ↔ ∃ a b, s = a +:+ sub +:+ b.
Proof.
  induction s as [|c s IH]; simpl.
  - rewrite orb_false_r, HasPrefix_spec. split.
    + intros [t Ht]. by exists "", t.
    + intros [[|x a] [b Hb]]; [by exists b | done].
  - rewrite orb_true_iff, HasPrefix_spec, IH. split.
    + intros [[t Ht] | (a & b & ->)]; [by exists "", t |].
      by exists (String c a), b.
    + intros [[|x a] [b Hb]]; [left; by exists b |].
      right. injection Hb as -> ->. by exists a, b.
Qed.

Lemma Contains_app_false (a b sub : string) :
  strings_Contains (a +:+ b) sub = false →
  strings_Contains a sub = false ∧ strings_Contains b sub = false.
Proof.
  intros H. split; apply not_true_is_false; intros Hc;
    apply Contains_spec in Hc as (x & y & ->);
    apply not_true_iff_false in H; apply H, Contains_spec.
  - exists x, (y +:+ b). by rewrite !str_app_assoc.
  - exists (a +:+ x), y. by rewrite !str_app_assoc.
Qed.

Lemma Contains_single (s : string) (c : ascii) :
  strings_Contains s (String c "") = str_mem c s.
Proof.
  induction s as [|d s IH]; simpl; [done |].
  rewrite IH, andb_true_r. by rewrite (Ascii.eqb_sym c d).
Qed.

Lemma str_mem_app (c : ascii) (a b : string) :
  str_mem c (a +:+ b) = str_mem c a || str_mem c b.
Proof. induction a as [|x a IH]; simpl; [done | by rewrite IH, orb_assoc]. Qed.

(** ** [strings.ReplaceAll] *)

Lemma replace_from_skip (k : nat) (old new s : string) :
  replace_from k old new s = replace_from 0 old new (str_drop k s).
Proof.
  revert k. induction s as [|c s IH]; intros [|k]; simpl; auto.
Qed.

Lemma replace_from_absent (old new s : string) :
  strings_Contains s old = false → replace_from 0 old new s = s.
Proof.
  induction s as [|c s IH]; [done |].
  intros H. change (strings_Contains (String c s) old)
    with (strings_HasPrefix (String c s) old || strings_Contains s old) in H.
  apply orb_false_iff in H as [Hp Hc].
  cbn [replace_from]. rewrite Hp. f_equal. by apply IH.
Qed.

Lemma ReplaceAll_absent (s old new : string) :
  strings_Contains s old = false → strings_ReplaceAll s old new = s.
Proof.
  intros H. unfold strings_ReplaceAll.
  destruct (String.eqb old new); [done |].
  destruct old; [done |]. by apply replace_from_absent.
Qed.

Lemma replace_from_mem (d : ascii) (k : nat) (old new s : string) :
  str_mem d s = false → str_mem d new = false →
  str_mem d (replace_from k old new s) = false.
Proof.
  intros Hs Hn. revert k Hs. induction s as [|c s IH]; intros k Hs; [done |].
  simpl in Hs. apply orb_false_iff in Hs as [Hc Hs].
  destruct k as [|k]; cbn [replace_from]; [| by apply IH].
  destruct (strings_HasPrefix (String c s) old).
  - rewrite str_mem_app, Hn. by apply IH.
  - simpl. rewrite Hc. by apply IH.
Qed.

Lemma ReplaceAll_mem (d : ascii) (s old new : string) :
  str_mem d s = false → str_mem d new = false →
  str_mem d (strings_ReplaceAll s old new) = false.
Proof.
  intros Hs Hn. unfold strings_ReplaceAll.
  destruct (String.eqb old new); [done |].
  destruct old; [done |]. by apply replace_from_mem.
Qed.

Lemma replace_from_single (c n : ascii) (s : string) :
  replace_from 0 (String c "") (String n "") s = str_map (subst_byte c n) s.
Proof.
  induction s as [|x s IH]; [done |].
  cbn [replace_from strings_HasPrefix str_map]. unfold subst_byte at 1.
  rewrite andb_true_r. destruct (Ascii.eqb c x); simpl; by rewrite IH.
Qed.

Lemma ReplaceAll_single (c n : ascii) (s : string) :
  c ≠ n →
  strings_ReplaceAll s (String c "") (String n "") = str_map (subst_byte c n) s.
Proof.
  intros Hne. unfold strings_ReplaceAll.
  assert (String.eqb (String c "") (String n "") = false) as ->.
  { apply str_eqb_neq. congruence. }
  apply replace_from_single.
Qed.

Lemma str_mem_subst (c n : ascii) (s : string) :
  c ≠ n → str_mem c (str_map (subst_byte c n) s) = false.
Proof.
  intros Hne. induction s as [|x s IH]; [done |].
  simpl. rewrite IH, orb_false_r. unfold subst_byte.
  destruct (Ascii.eqb c x) eqn:E.
  - apply Ascii.eqb_neq. congruence.
  - by rewrite Ascii.eqb_sym.
Qed.

Lemma HasPrefix_dot_map (f : ascii → ascii) (s : string) :
  (∀ x, f x = "."%char → x = "."%char) →
  strings_HasPrefix s "." = false → strings_HasPrefix (str_map f s) "." = false.
Proof.
  intros Hf. destruct s as [|x s]; [done |]. simpl.
  rewrite !andb_true_r. intros H. apply Ascii.eqb_neq in H.
  apply Ascii.eqb_neq. intros E. apply H. symmetry. by apply Hf.
Qed.

Lemma Contains_dotdot_map (f : ascii → ascii) (s : string) :
  (∀ x, f x = "."%char → x = "."%char) →
  strings_Contains s ".." = false → strings_Contains (str_map f s) ".." = false.
Proof.
  intros Hf. induction s as [|x s IH]; [done |].
  cbn [strings_Contains str_map]. intros H.
  apply orb_false_iff in H as [Hp Hc]. rewrite (IH Hc), orb_false_r.
  cbn [strings_HasPrefix] in *.
  apply andb_false_iff in Hp as [Hx | Hs].
  - apply andb_false_iff. left. apply Ascii.eqb_neq in Hx.
    apply Ascii.eqb_neq. intros E. apply Hx. symmetry. by apply Hf.
  - apply andb_false_iff. right.
    by apply (HasPrefix_dot_map f s Hf) in Hs.
Qed.

(** After [ReplaceAll(s, "..", "_")] no two dots are adjacent. *)
Lemma replace_dotdot_head (s : string) :
  strings_HasPrefix s "." = false →
  strings_HasPrefix (replace_from 0 ".." "_" s) "." = false.
Proof.
  destruct s as [|x s]; [done |]. intros H.
  cbn [replace_from]. simpl in H. rewrite andb_true_r in H.
  assert (strings_HasPrefix (String x s) ".." = false) as ->.
  { simpl. by rewrite H. }
  simpl. by rewrite H.
Qed.

Lemma replace_dotdot_bounded (n : nat) (s : string) :
  String.length s ≤ n →
  strings_Contains (replace_from 0 ".." "_" s) ".." = false.
Proof.
  revert s. induction n as [|n IH]; intros s Hn.
  { destruct s; [done | simpl in Hn; lia]. }
  destruct s as [|c s]; [done |].
  cbn [replace_from].
  destruct (strings_HasPrefix (String c s) "..") eqn:Hp.
  - rewrite replace_from_skip.
    destruct s as [|d s]; [simpl in Hp; by rewrite andb_false_r in Hp |].
    cbn [String.length Nat.sub str_drop]. simpl String.append.
    cbn [strings_Contains strings_HasPrefix].
    change (Ascii.eqb "." "_") with false.
    simpl. apply IH. simpl in Hn. lia.
  - cbn [strings_Contains]. rewrite (IH s) by (simpl in Hn; lia).
    rewrite orb_false_r. cbn [strings_HasPrefix] in *.
    apply andb_false_iff in Hp as [Hc | Hs]; [by rewrite Hc |].
    apply andb_false_iff. right.
    by apply replace_dotdot_head.
Qed.

Lemma ReplaceAll_dotdot (s : string) :
  strings_Contains (strings_ReplaceAll s ".." "_") ".." = false.
Proof. apply (replace_dotdot_bounded (String.length s)). lia. Qed.

(** ** [strings.Trim] *)

Lemma str_last_app (a b : string) : b ≠ "" → str_last (a +:+ b) = str_last b.
Proof.
  intros Hb. induction a as [|x a IH]; [done |].
  simpl. rewrite IH. destruct (a +:+ b) eqn:E; [| done].
  destruct a; simpl in E; [by subst | done].
Qed.

Lemma TrimLeft_suffix (s cutset : string) :
  ∃ a, s = a +:+ strings_TrimLeft s cutset.
Proof.
  induction s as [|c s [a IH]]; [by exists "" |].
  simpl. destruct (in_cutset cutset c).
  - exists (String c a). simpl. by rewrite <- IH.
  - by exists "".
Qed.

Lemma TrimRight_prefix (s cutset : string) :
  ∃ b, s = strings_TrimRight s cutset +:+ b.
Proof.
  induction s as [|c s [b IH]]; [by exists "" |].
  simpl. destruct (strings_TrimRight s cutset) as [|d t] eqn:E.
  - destruct (in_cutset cutset c).
    + by exists (String c s).
    + exists b. simpl in IH. by rewrite IH at 1.
  - exists b. by rewrite IH at 1.
Qed.

Lemma Contains_Trim (s cutset sub : string) :
  strings_Contains s sub = false →
  strings_Contains (strings_Trim s cutset) sub = false.
Proof.
  intros H. unfold strings_Trim.
  destruct (TrimRight_prefix s cutset) as [b Hb].
  destruct (TrimLeft_suffix (strings_TrimRight s cutset) cutset) as [a Ha].
  rewrite Hb in H. apply Contains_app_false in H as [H _].
  rewrite Ha in H. by apply Contains_app_false in H as [_ H].
Qed.

Lemma TrimLeft_head (s cutset : string) :
  clear_of cutset (str_head (strings_TrimLeft s cutset)).
Proof.
  induction s as [|c s IH]; [done |].
  simpl. destruct (in_cutset cutset c) eqn:E; [done |].
  intros x [= <-]. done.
Qed.

Lemma TrimRight_last (s cutset : string) :
  clear_of cutset (str_last (strings_TrimRight s cutset)).
Proof.
  induction s as [|c s IH]; [done |].
  simpl. destruct (strings_TrimRight s cutset) as [|d t] eqn:E.
  - destruct (in_cutset cutset c) eqn:Ec; [done |].
    intros x [= <-]. done.
  - exact IH.
Qed.

Lemma TrimLeft_fixed (s cutset : string) :
  clear_of cutset (str_head s) → strings_TrimLeft s cutset = s.
Proof.
  destruct s as [|c s]; [done |]. intros H. simpl. by rewrite (H c).
Qed.

Lemma TrimRight_fixed (s cutset : string) :
  clear_of cutset (str_last s) → strings_TrimRight s cutset = s.
Proof.
  induction s as [|c s IH]; [done |]. intros H. simpl.
  destruct s as [|d t].
  - simpl. by rewrite (H c).
  - rewrite IH by exact H. done.
Qed.

Lemma Trim_edges (s cutset : string) :
  clear_of cutset (str_head (strings_Trim s cutset)) ∧
  clear_of cutset (str_last (strings_Trim s cutset)).
Proof.
  unfold strings_Trim. split; [apply TrimLeft_head |].
  destruct (TrimLeft_suffix (strings_TrimRight s cutset) cutset) as [a Ha].
  destruct (strings_TrimLeft (strings_TrimRight s cutset) cutset) eqn:E;
    [done |].
  rewrite <- (str_last_app a) by done. rewrite <- Ha. apply TrimRight_last.
Qed.

Lemma Trim_fixed (s cutset : string) :
  clear_of cutset (str_head s) → clear_of cutset (str_last s) →
  strings_Trim s cutset = s.
Proof.
  intros Hh Hl. unfold strings_Trim.
  rewrite TrimRight_fixed by done. by apply TrimLeft_fixed.
Qed.

Lemma Trim_idemp (s cutset : string) :
  strings_Trim (strings_Trim s cutset) cutset = strings_Trim s cutset.
Proof. apply Trim_fixed; apply Trim_edges. Qed.

(** ** [sanitizeFilename] *)

Lemma subst_underscore_dot (c x : ascii) :
  subst_byte c "_" x = "."%char → x = "."%char.
Proof. unfold subst_byte. by destruct (Ascii.eqb c x). Qed.

(** One step of the loop keeps a byte other than the placeholder absent. *)
Ltac absent_byte :=
  repeat first
    [ solve [ rewrite ReplaceAll_single by discriminate;
              apply str_mem_subst; discriminate ]
    | apply ReplaceAll_mem; [| reflexivity] ].

(** One step of the loop for a one-byte pattern keeps [".."] absent. *)
Ltac absent_dotdot :=
  repeat first
    [ apply ReplaceAll_dotdot
    | rewrite ReplaceAll_single by discriminate;
      apply Contains_dotdot_map; [apply subst_underscore_dot |] ].

Lemma replace_unsafe_clean (s u : string) :
  u ∈ unsafe → strings_Contains (replace_unsafe s) u = false.
Proof.
  unfold unsafe, quote. intros Hu.
  repeat (apply elem_of_cons in Hu as [-> | Hu]);
    [.. | by apply elem_of_nil in Hu];
    unfold replace_unsafe, unsafe, quote; cbn [fold_left];
    try (rewrite Contains_single; absent_byte).
  absent_dotdot.
Qed.

Lemma sanitizeFilename_cases (s : string) :
  (strings_Trim (replace_unsafe s) " ." = "" ∧
   sanitizeFilename s = default_name) ∨
  (strings_Trim (replace_unsafe s) " ." ≠ "" ∧
   sanitizeFilename s = strings_Trim (replace_unsafe s) " .").
Proof.
  unfold sanitizeFilename.
  destruct (String.eqb (strings_Trim (replace_unsafe s) " .") "") eqn:E.
  - left. by apply str_eqb_eq in E.
  - right. by apply str_eqb_neq in E.
Qed.

Lemma default_name_clean (u : string) :
  u ∈ unsafe → strings_Contains default_name u = false.
Proof.
  unfold unsafe, quote. intros Hu.
  repeat (apply elem_of_cons in Hu as [-> | Hu]);
    [.. | by apply elem_of_nil in Hu]; reflexivity.
Qed.

Lemma sanitizeFilename_clean (s u : string) :
  u ∈ unsafe → strings_Contains (sanitizeFilename s) u = false.
Proof.
  intros Hu. destruct (sanitizeFilename_cases s) as [[_ ->] | [_ ->]].
  - by apply default_name_clean.
  - by apply Contains_Trim, replace_unsafe_clean.
Qed.

Lemma sanitizeFilename_nonempty (s : string) : sanitizeFilename s ≠ "".
Proof.
  destruct (sanitizeFilename_cases s) as [[_ ->] | [H ->]]; done.
Qed.

Lemma sanitizeFilename_edges (s : string) :
  clear_of " ." (str_head (sanitizeFilename s)) ∧
  clear_of " ." (str_last (sanitizeFilename s)).
Proof.
  destruct (sanitizeFilename_cases s) as [[_ ->] | [_ ->]].
  - split; intros c [= <-]; reflexivity.
  - apply Trim_edges.
Qed.

Lemma replace_unsafe_fixed (s : string) :
  (∀ u, u ∈ unsafe → strings_Contains s u = false) → replace_unsafe s = s.
Proof.
  unfold replace_unsafe. generalize unsafe as pats.
  intros pats. induction pats as [|p pats IH]; intros H; [done |].
  cbn [fold_left]. rewrite ReplaceAll_absent.
  - apply IH. intros u Hu. apply H. by right.
  - apply H. by left.
Qed.

(** A name without unsafe sequences, not empty, and without spaces or dots at
    its ends is left as it is. *)
Lemma sanitizeFilename_fixed (s : string) :
  (∀ u, u ∈ unsafe → strings_Contains s u = false) →
  s ≠ "" →
  clear_of " ." (str_head s) → clear_of " ." (str_last s) →
  sanitizeFilename s = s.
Proof.
  intros Hc Hne Hh Hl. unfold sanitizeFilename.
  rewrite replace_unsafe_fixed by done. rewrite Trim_fixed by done.
  apply str_eqb_neq in Hne. by rewrite Hne.
Qed.

(** ** [filepath.Ext] and [strings.TrimSuffix] *)

Lemma str_take_drop (n : nat) (s : string) : str_take n s +:+ str_drop n s = s.
Proof.
  revert s. induction n as [|n IH]; intros [|c s]; simpl; try done.
  by rewrite IH.
Qed.

Lemma str_drop_app (a b : string) : str_drop (String.length a) (a +:+ b) = b.
Proof. induction a as [|x a IH]; simpl; [by destruct b | done]. Qed.

Lemma str_take_app (a b : string) : str_take (String.length a) (a +:+ b) = a.
Proof. induction a as [|x a IH]; simpl; [by destruct b | by rewrite IH]. Qed.

Lemma str_get_drop (i : nat) (s : string) (c : ascii) :
  String.get i s = Some c → str_drop i s = String c (str_drop (S i) s).
Proof.
  revert s. induction i as [|i IH]; intros [|x s] H; simpl in H; try done.
  - injection H as ->. by destruct s.
  - by apply IH in H.
Qed.

Lemma str_get_mem (i : nat) (s : string) (c : ascii) :
  String.get i s = Some c → str_mem c s = true.
Proof.
  revert s. induction i as [|i IH]; intros [|x s] H; simpl in H; try done.
  - injection H as ->. simpl. by rewrite Ascii.eqb_refl.
  - simpl. rewrite (IH s H). apply orb_true_r.
Qed.

Lemma TrimSuffix_app (b e : string) : strings_TrimSuffix (b +:+ e) e = b.
Proof.
  unfold strings_TrimSuffix, strings_HasSuffix.
  rewrite str_app_length.
  replace (String.length b + String.length e - String.length e)
    with (String.length b) by lia.
  rewrite str_drop_app, str_take_app, String.eqb_refl.
  destruct (String.length e <=? String.length b + String.length e)%nat eqn:E;
    [done |].
  apply Nat.leb_gt in E. lia.
Qed.

Lemma str_get_lt (i : nat) (s : string) :
  i < String.length s → is_Some (String.get i s).
Proof.
  revert s. induction i as [|i IH]; intros [|x s] H; simpl in *; try lia.
  - by eexists.
  - apply IH. lia.
Qed.

(** What the loop of [filepath.Ext] returns when no dot and no separator lies
    at or behind position [n]. *)
Lemma Ext_loop_spec (path : string) (n : nat) :
  n ≤ String.length path →
  str_mem "." (str_drop n path) = false →
  str_mem "/" (str_drop n path) = false →
  (Ext_loop path n = "" ∧ (str_mem "/" path = false → str_mem "." path = false))
  ∨ (∃ b e, path = b +:+ "." +:+ e ∧ Ext_loop path n = "." +:+ e ∧
            str_mem "." e = false ∧ str_mem "/" e = false).
Proof.
  induction n as [|n IH]; intros Hn Hdot Hsep.
  { left. split; [done |]. intros _. by destruct path. }
  cbn [Ext_loop]. destruct (str_get_lt n path) as [c Hget]; [lia |].
  rewrite Hget. pose proof (str_get_drop _ _ _ Hget) as Hd.
  unfold os_IsPathSeparator.
  destruct (Ascii.eqb c "/") eqn:Ec.
  { apply Ascii.eqb_eq in Ec as ->. left. split; [done |].
    apply str_get_mem in Hget. by rewrite Hget. }
  destruct (Ascii.eqb c ".") eqn:Ed.
  { apply Ascii.eqb_eq in Ed as ->. right.
    exists (str_take n path), (str_drop (S n) path). repeat split; try done.
    rewrite <- (str_take_drop n path) at 1. by rewrite Hd. }
  apply IH; [lia | |]; rewrite Hd; simpl; by rewrite ?Ec, ?Ed.
Qed.

Lemma filepath_Ext_spec (path : string) :
  (filepath_Ext path = "" ∧ (str_mem "/" path = false → str_mem "." path = false))
  ∨ (∃ b e, path = b +:+ "." +:+ e ∧ filepath_Ext path = "." +:+ e ∧
            str_mem "." e = false ∧ str_mem "/" e = false).
Proof.
  apply Ext_loop_spec; [done | |].
  - rewrite <- (str_app_nil_r path) at 2. by rewrite str_drop_app.
  - rewrite <- (str_app_nil_r path) at 2. by rewrite str_drop_app.
Qed.

(** [base + ext] is the name again. *)
Lemma base_ext_join (name : string) :
  strings_TrimSuffix name (filepath_Ext name) +:+ filepath_Ext name = name.
Proof.
  destruct (filepath_Ext_spec name) as [[-> _] | (b & e & Hn & -> & _)].
  - rewrite <- (str_app_nil_r name) at 1. by rewrite TrimSuffix_app, str_app_nil_r.
  - rewrite Hn at 1. rewrite <- str_app_assoc. rewrite TrimSuffix_app.
    by rewrite str_app_assoc.
Qed.

(** A candidate is longer than the name it is made from. *)
Lemma candidate_length (name : string) (i : Z) :
  String.length name < String.length (candidate name i).
Proof.
  rewrite <- (base_ext_join name) at 1.
  unfold candidate, Sprintf_s_d_s. rewrite !str_app_length.
  simpl. lia.
Qed.

Lemma candidate_not_name (name : string) (i : Z) : candidate name i ≠ name.
Proof.
  intros H. pose proof (candidate_length name i) as Hlen.
  rewrite H in Hlen. lia.
Qed.

(** ** The probe loop of [getUniqueFilename] *)

Lemma Sprintf_inj (base ext : string) (i j : Z) :
  Sprintf_s_d_s base i ext = Sprintf_s_d_s base j ext → i = j.
Proof.
  unfold Sprintf_s_d_s. intros H.
  apply (inj (String.append base)) in H.
  apply (inj (String.append "_")) in H.
  apply str_app_inv_tail in H. by apply (inj pretty) in H.
Qed.

Lemma filepath_Join_inj (dir a b : string) :
  filepath_Join dir a = filepath_Join dir b → a = b.
Proof.
  unfold filepath_Join. intros H.
  apply (inj (String.append dir)) in H.
  by apply (inj (String.append "/")) in H.
Qed.

Lemma int_incr_small (i : Z) : (0 ≤ i < int_max)%Z → int_incr i = (i + 1)%Z.
Proof.
  unfold int_incr, int_wrap, int_max. intros H.
  rewrite Z.mod_small by lia. lia.
Qed.

Lemma stat_result_free (w : World) (path : string) :
  os_IsNotExist (stat_result w path) = true ↔
  stat_failure w path = None ∧ fs w !! path = None.
Proof.
  unfold stat_result.
  destruct (stat_failure w path), (fs w !! path); simpl; split;
    try done; by intros [? ?].
Qed.

Lemma stat_result_found (w : World) (path : string) :
  stat_result w path = None ↔
  stat_failure w path = None ∧ is_Some (fs w !! path).
Proof.
  unfold stat_result.
  destruct (stat_failure w path), (fs w !! path); simpl; split;
    try done; try (by intros [? [? ?]]); by eauto.
Qed.

Lemma stat_result_taken (w : World) (path : string) :
  stat_failure w path = None →
  os_IsNotExist (stat_result w path) = false → is_Some (fs w !! path).
Proof.
  unfold stat_result. intros ->. by destruct (fs w !! path); [eauto |].
Qed.

Lemma probe_step (fuel : nat) (dir base ext : string) (i : Z) (w : World) :
  probe (S fuel) dir base ext i w =
  let newFilename := Sprintf_s_d_s base i ext in
  let w' := record_call (SysStat (filepath_Join dir newFilename)) w in
  if os_IsNotExist (stat_result w (filepath_Join dir newFilename))
  then Some (newFilename, w')
  else probe fuel dir base ext (int_incr i) w'.
Proof.
  cbn [probe]. unfold mbind, M_bind, os_Stat. cbv zeta.
  by destruct (os_IsNotExist _).
Qed.

(** More fuel does not change what a finished loop returned. *)
Lemma probe_mono (fuel fuel' : nat) (dir base ext : string) (i : Z)
      (w : World) (res : string * World) :
  probe fuel dir base ext i w = Some res → fuel ≤ fuel' →
  probe fuel' dir base ext i w = Some res.
Proof.
  revert fuel' i w. induction fuel as [|fuel IH]; intros fuel' i w H Hle;
    [done |].
  destruct fuel' as [|fuel']; [lia |].
  rewrite probe_step in *. cbv zeta in *.
  destruct (os_IsNotExist _); [done |]. apply IH; [done | lia].
Qed.

(** A loop that finished returns the first free candidate and has only
    looked at the file system, when [os.Stat] can look up the candidates. *)
Lemma probe_Some (fuel : nat) (dir base ext : string) (i : Z)
      (w w' : World) (r : string) :
  (0 ≤ i)%Z → (i + Z.of_nat fuel ≤ int_max + 1)%Z →
  (∀ j : nat, j < fuel →
     stat_failure w (filepath_Join dir
                       (Sprintf_s_d_s base (i + Z.of_nat j) ext)) = None) →
  probe fuel dir base ext i w = Some (r, w') →
  ∃ k : nat,
    k < fuel ∧
    r = Sprintf_s_d_s base (i + Z.of_nat k) ext ∧
    fs w !! filepath_Join dir r = None ∧
    (∀ j : nat, j < k →
       is_Some (fs w !! filepath_Join dir
                  (Sprintf_s_d_s base (i + Z.of_nat j) ext))) ∧
    fs w' = fs w ∧ rename_errors w' = rename_errors w ∧ logs w' = logs w ∧
    calls w' = calls w ++ probe_calls dir base ext i (S k).
Proof.
  revert i w. induction fuel as [|fuel IH]; intros i w Hi Hmax Hclear H;
    [done |].
  rewrite probe_step in H. cbv zeta in H.
  assert (∀ j : nat, (i + 1 + Z.of_nat j)%Z = (i + Z.of_nat (S j))%Z) as Hshift
    by (intros j; lia).
  destruct (os_IsNotExist
              (stat_result w (filepath_Join dir (Sprintf_s_d_s base i ext))))
    eqn:E.
  - apply stat_result_free in E as [_ E].
    injection H as <- <-. exists 0. rewrite Z.add_0_r.
    split_and!; try done; try lia.
    unfold probe_calls. simpl. by rewrite Z.add_0_r.
  - apply stat_result_taken in E;
      [| specialize (Hclear 0); rewrite Z.add_0_r in Hclear; apply Hclear; lia].
    assert (0 < fuel) by (destruct fuel; [done | lia]).
    rewrite int_incr_small in H by lia.
    apply IH in H as (k & Hk & Hr & Hfree & Htaken & Hfs & Hre & Hlog & Hc);
      [| lia | lia |].
    2:{ intros j Hj. simpl. rewrite Hshift. apply Hclear. lia. }
    simpl in Hfs, Hre, Hlog, Hc, Hfree, Htaken.
    exists (S k). split_and!; try done.
    + lia.
    + by rewrite <- Hshift.
    + intros [|j] Hj.
      * by rewrite Z.add_0_r.
      * rewrite <- Hshift. apply Htaken. lia.
    + rewrite Hc, <- app_assoc. f_equal. unfold probe_calls.
      rewrite (fmap_cons _ 0 (seq 1 (S k))), Z.add_0_r. cbn [app]. f_equal.
      rewrite <- (fmap_S_seq 0), <- list_fmap_compose. apply list_fmap_ext.
      intros _ j _. simpl. by rewrite Hshift.
Qed.

(** A loop that ran out of fuel found every candidate taken, when [os.Stat]
    can look up the candidates. *)
Lemma probe_None (fuel : nat) (dir base ext : string) (i : Z) (w : World) :
  (0 ≤ i)%Z → (i + Z.of_nat fuel ≤ int_max + 1)%Z →
  (∀ j : nat, j < fuel →
     stat_failure w (filepath_Join dir
                       (Sprintf_s_d_s base (i + Z.of_nat j) ext)) = None) →
  probe fuel dir base ext i w = None →
  ∀ j : nat, j < fuel →
    is_Some (fs w !! filepath_Join dir
               (Sprintf_s_d_s base (i + Z.of_nat j) ext)).
Proof.
  revert i w. induction fuel as [|fuel IH]; intros i w Hi Hmax Hclear H j Hj;
    [lia |].
  rewrite probe_step in H. cbv zeta in H.
  destruct (os_IsNotExist
              (stat_result w (filepath_Join dir (Sprintf_s_d_s base i ext))))
    eqn:E; [done |].
  apply stat_result_taken in E;
    [| specialize (Hclear 0); rewrite Z.add_0_r in Hclear; apply Hclear; lia].
  destruct j as [|j]; [by rewrite Z.add_0_r |].
  rewrite int_incr_small in H by lia.
  replace (i + Z.of_nat (S j))%Z with (i + 1 + Z.of_nat j)%Z by lia.
  refine (IH (i + 1)%Z _ _ _ _ H j _); try lia.
  intros j' Hj'. simpl.
  replace (i + 1 + Z.of_nat j')%Z with (i + Z.of_nat (S j'))%Z by lia.
  apply Hclear. lia.
Qed.

(** Pigeonhole: more distinct candidates than files cannot all be taken. *)
Lemma candidates_not_all_taken (dir base ext : string) (i : Z) (w : World)
      (n : nat) :
  size (fs w) < n →
  ¬ ∀ j : nat, j < n →
      is_Some (fs w !! filepath_Join dir
                 (Sprintf_s_d_s base (i + Z.of_nat j) ext)).
Proof.
  intros Hsize Hall.
  set (f := λ j : nat,
         filepath_Join dir (Sprintf_s_d_s base (i + Z.of_nat j) ext)).
  assert (Inj (=) (=) f) as Hinj.
  { intros a b Hab. apply filepath_Join_inj, Sprintf_inj in Hab. lia. }
  assert (size (list_to_set (C := gset string) (f <$> seq 0 n)) ≤ size (dom (fs w)))
    as Hle.
  { apply subseteq_size. intros p Hp.
    apply elem_of_list_to_set, list_elem_of_fmap in Hp as (j & -> & Hj).
    apply elem_of_seq in Hj. apply elem_of_dom, Hall. lia. }
  rewrite size_list_to_set in Hle by (apply NoDup_fmap_2, NoDup_seq; done).
  rewrite length_fmap, length_seq, size_dom in Hle. lia.
Qed.

(** With more fuel than files, fewer files than [int] has positive values,
    and candidates that [os.Stat] can look up, the loop finishes. *)
Lemma probe_finishes (fuel : nat) (dir base ext : string) (w : World) :
  (Z.of_nat (size (fs w)) < int_max)%Z → size (fs w) < fuel →
  (∀ j : nat, j < S (size (fs w)) →
     stat_failure w (filepath_Join dir
                       (Sprintf_s_d_s base (1 + Z.of_nat j) ext)) = None) →
  is_Some (probe fuel dir base ext 1 w).
Proof.
  intros Hmax Hfuel Hclear.
  destruct (probe (S (size (fs w))) dir base ext 1 w) as [res|] eqn:E.
  - exists res. by apply (probe_mono (S (size (fs w)))); [| lia].
  - exfalso. apply (candidates_not_all_taken dir base ext 1 w (S (size (fs w))));
      [lia |].
    apply probe_None; [lia | lia | done | done].
Qed.

(** A loop whose candidates [os.Stat] cannot look up never finishes. *)
Lemma probe_refused (fuel : nat) (dir base ext : string) (i : Z) (w : World) :
  (∀ j : Z, is_Some (stat_failure w (filepath_Join dir
                                        (Sprintf_s_d_s base j ext)))) →
  probe fuel dir base ext i w = None.
Proof.
  intros Href. revert i w Href.
  induction fuel as [|fuel IH]; intros i w Href; [done |].
  rewrite probe_step. cbv zeta. unfold stat_result.
  destruct (Href i) as [msg ->]. simpl. by apply IH.
Qed.

(** ** [getUniqueFilename] *)

Lemma bind_Some {A B : Type} (m : M A) (k : A → M B) (w w1 : World) (a : A) :
  m w = Some (a, w1) → (m ≫= k) w = k a w1.
Proof. intros H. unfold mbind, M_bind. by rewrite H. Qed.

Lemma bind_None {A B : Type} (m : M A) (k : A → M B) (w : World) :
  m w = None → (m ≫= k) w = None.
Proof. intros H. unfold mbind, M_bind. by rewrite H. Qed.

Lemma getUniqueFilename_free (fuel : nat) (dir filename : string) (w : World) :
  os_IsNotExist
    (stat_result w (filepath_Join dir (sanitizeFilename filename))) = true →
  getUniqueFilename fuel dir filename w =
  Some (sanitizeFilename filename,
        record_call (SysStat (filepath_Join dir (sanitizeFilename filename))) w).
Proof.
  intros H. unfold getUniqueFilename, mbind, M_bind, os_Stat. cbv zeta.
  by rewrite H.
Qed.

Lemma getUniqueFilename_taken (fuel : nat) (dir filename : string) (w : World) :
  os_IsNotExist
    (stat_result w (filepath_Join dir (sanitizeFilename filename))) = false →
  getUniqueFilename fuel dir filename w =
  probe fuel dir
        (strings_TrimSuffix (sanitizeFilename filename)
                            (filepath_Ext (sanitizeFilename filename)))
        (filepath_Ext (sanitizeFilename filename)) 1
        (record_call (SysStat (filepath_Join dir (sanitizeFilename filename))) w).
Proof.
  intros H. unfold getUniqueFilename, mbind, M_bind, os_Stat. cbv zeta.
  by rewrite H.
Qed.

(** What [getUniqueFilename] returns and does, given more fuel than files,
    fewer files than [int] has positive values, and names that [os.Stat] can
    look up. *)
Lemma getUniqueFilename_result (fuel : nat) (dir filename : string) (w : World) :
  (Z.of_nat (size (fs w)) < int_max)%Z → size (fs w) < fuel →
  stat_clear w dir (sanitizeFilename filename) →
  (fs w !! filepath_Join dir (sanitizeFilename filename) = None ∧
   getUniqueFilename fuel dir filename w =
   Some (sanitizeFilename filename,
         record_call (SysStat (filepath_Join dir (sanitizeFilename filename))) w))
  ∨
  (is_Some (fs w !! filepath_Join dir (sanitizeFilename filename)) ∧
   ∃ (k : nat) (w' : World),
     getUniqueFilename fuel dir filename w =
     Some (candidate (sanitizeFilename filename) (1 + Z.of_nat k), w') ∧
     fs w !! filepath_Join dir
        (candidate (sanitizeFilename filename) (1 + Z.of_nat k)) = None ∧
     (∀ j : nat, j < k →
        is_Some (fs w !! filepath_Join dir
                   (candidate (sanitizeFilename filename) (1 + Z.of_nat j)))) ∧
     fs w' = fs w ∧ rename_errors w' = rename_errors w ∧ logs w' = logs w ∧
     calls w' =
     calls w ++
       SysStat (filepath_Join dir (sanitizeFilename filename))
       :: probe_calls dir
            (strings_TrimSuffix (sanitizeFilename filename)
                                (filepath_Ext (sanitizeFilename filename)))
            (filepath_Ext (sanitizeFilename filename)) 1 (S k)).
Proof.
  intros Hmax Hfuel [Hname Hcands].
  destruct (os_IsNotExist
              (stat_result w (filepath_Join dir (sanitizeFilename filename))))
    eqn:E.
  { left. split; [by apply stat_result_free in E as [_ E] |].
    by apply getUniqueFilename_free. }
  right. split; [by apply stat_result_taken |].
  rewrite getUniqueFilename_taken by done.
  set (w1 := record_call _ w).
  set (ext := filepath_Ext _). set (base := strings_TrimSuffix _ _).
  assert (∀ j : nat, j < S (size (fs w1)) →
            stat_failure w1 (filepath_Join dir
              (Sprintf_s_d_s base (1 + Z.of_nat j) ext)) = None) as Hclear.
  { intros j Hj. apply Hcands. simpl in Hj. lia. }
  destruct (probe_finishes (S (size (fs w))) dir base ext w1)
    as [[r w'] Hr]; [done | simpl; lia | done |].
  pose proof Hr as Hr'.
  apply probe_Some in Hr'
    as (k & Hk & -> & Hfree & Htaken & Hfs & Hre & Hlog & Hc);
    [| lia | lia | done].
  exists k, w'. split_and!; try done.
  - apply (probe_mono (S (size (fs w)))); [done | lia].
  - subst w1. simpl in Hc. by rewrite Hc, <- app_assoc.
Qed.

(** ** [handleCompletedUploads] *)

Section FinalizerRuns.

Variable uploadsDir : string.

Lemma handle_no_filename (fuel : nat) (event : HookEvent) (w : World) :
  originalFilename_of event = "" →
  handleCompletedUpload uploadsDir fuel event w =
  Some (tt, add_log (log_no_filename (ID (Upload event)))
              (add_log (log_finished (ID (Upload event)) "") w)).
Proof.
  unfold originalFilename_of. intros H.
  unfold handleCompletedUpload. rewrite H. reflexivity.
Qed.

(** A pass in which [getUniqueFilename] does not return does not return. *)
Lemma handle_stuck (fuel : nat) (event : HookEvent) (w : World) :
  originalFilename_of event ≠ "" →
  getUniqueFilename fuel uploadsDir (originalFilename_of event)
    (add_log (log_finished (ID (Upload event)) (originalFilename_of event)) w)
  = None →
  handleCompletedUpload uploadsDir fuel event w = None.
Proof.
  unfold originalFilename_of. intros Hne Hg.
  apply str_eqb_neq in Hne.
  unfold handleCompletedUpload. rewrite Hne.
  unfold slog_Info, slog.
  rewrite (bind_Some _ _ w _ tt eq_refl).
  by erewrite bind_None; [| exact Hg].
Qed.

(** A pass with a filename, after [getUniqueFilename] has returned. *)
Lemma handle_with_filename (fuel : nat) (event : HookEvent) (w w2 : World)
      (finalFilename : string) :
  originalFilename_of event ≠ "" →
  getUniqueFilename fuel uploadsDir (originalFilename_of event)
    (add_log (log_finished (ID (Upload event)) (originalFilename_of event)) w)
  = Some (finalFilename, w2) →
  handleCompletedUpload uploadsDir fuel event w =
  let uploadID := ID (Upload event) in
  let oldPath := filepath_Join uploadsDir uploadID in
  let newPath := filepath_Join uploadsDir finalFilename in
  match stat_result w2 oldPath with
  | Some _ =>
      Some (tt, add_log (log_not_found uploadID (originalFilename_of event)
                                       oldPath)
                  (record_call (SysStat oldPath) w2))
  | None =>
      match rename_errors w2, fs w2 !! oldPath with
      | Some e :: rest, _ =>
          Some (tt, add_log (log_rename_failed
                               uploadID (originalFilename_of event)
                               finalFilename e)
                      (mkWorld (fs w2) (stat_failure w2) rest
                         (calls w2 ++ [SysStat oldPath;
                                       SysRename oldPath newPath])
                         (logs w2)))
      | errs, Some data =>
          Some (tt, add_log (log_renamed uploadID (originalFilename_of event)
                                         finalFilename)
                      (mkWorld (<[newPath := data]> (delete oldPath (fs w2)))
                         (stat_failure w2) (tail errs)
                         (calls w2 ++ [SysStat oldPath;
                                       SysRename oldPath newPath])
                         (logs w2)))
      | errs, None =>
          Some (tt, add_log (log_rename_failed
                               uploadID (originalFilename_of event)
                               finalFilename ErrNotExist)
                      (mkWorld (fs w2) (stat_failure w2) (tail errs)
                         (calls w2 ++ [SysStat oldPath;
                                       SysRename oldPath newPath])
                         (logs w2)))
      end
  end.
Proof.
  unfold originalFilename_of. intros Hne Hg.
  apply str_eqb_neq in Hne.
  unfold handleCompletedUpload. rewrite Hne.
  unfold slog_Info, slog.
  rewrite (bind_Some _ _ w _ tt eq_refl).
  rewrite (bind_Some _ _ _ _ _ Hg). cbv zeta.
  unfold mbind, M_bind, os_Stat, os_Rename, slog_Warn, slog_Error, slog_Info,
    slog, record_call, add_log, next_rename_error. cbv zeta. simpl.
  change (stat_result {| fs := fs w2; stat_failure := stat_failure w2;
                         rename_errors := rename_errors w2;
                         calls := calls w2; logs := logs w2 |})
    with (stat_result w2) || idtac.
  destruct (stat_result w2 (filepath_Join uploadsDir (ID (Upload event))))
    as [err|] eqn:E; [done |].
  simpl.
  destruct (rename_errors w2) as [|[e|] rest]; simpl;
    destruct (fs w2 !! filepath_Join uploadsDir (ID (Upload event)));
    simpl; by rewrite <- ?app_assoc.
Qed.

End FinalizerRuns.

(** ** Names of spaces and dots, and names without adjacent dots *)

Lemma all_in_mem (cutset s : string) (c : ascii) :
  all_in cutset s = true → in_cutset cutset c = false → str_mem c s = false.
Proof.
  intros Hall Hc. induction s as [|x s IH]; [done |].
  simpl in *. apply andb_true_iff in Hall as [Hx Hs].
  rewrite (IH Hs), orb_false_r. apply Ascii.eqb_neq. intros ->. congruence.
Qed.

Lemma all_in_TrimRight (cutset s : string) :
  all_in cutset s = true → strings_TrimRight s cutset = "".
Proof.
  induction s as [|x s IH]; [done |]. simpl.
  intros [Hx Hs]%andb_true_iff. by rewrite (IH Hs), Hx.
Qed.

Lemma replace_from_present (old new s : string) :
  old ≠ "" → strings_Contains s old = true →
  strings_Contains (replace_from 0 old new s) new = true.
Proof.
  intros Hold. induction s as [|c s IH].
  - simpl. rewrite orb_false_r. by destruct old.
  - intros H. cbn [replace_from].
    destruct (strings_HasPrefix (String c s) old) eqn:Hp.
    + apply Contains_spec. by exists "", (replace_from (String.length old - 1) old new s).
    + cbn [strings_Contains] in H. rewrite Hp in H. simpl in H.
      apply IH, Contains_spec in H as (a & b & Hab).
      apply Contains_spec. exists (String c a), b. simpl. by rewrite Hab.
Qed.

Lemma str_mem_map (f : ascii → ascii) (d : ascii) (s : string) :
  f d = d → str_mem d s = true → str_mem d (str_map f s) = true.
Proof.
  intros Hf. induction s as [|x s IH]; [done |]. simpl.
  intros [Hx | Hs]%orb_true_iff.
  - apply Ascii.eqb_eq in Hx as ->. by rewrite Hf, Ascii.eqb_refl.
  - rewrite (IH Hs). apply orb_true_r.
Qed.

Lemma str_mem_TrimLeft (cutset s : string) (d : ascii) :
  in_cutset cutset d = false → str_mem d s = true →
  str_mem d (strings_TrimLeft s cutset) = true.
Proof.
  intros Hd. induction s as [|x s IH]; [done |]. simpl.
  destruct (in_cutset cutset x) eqn:Ex; [| done].
  intros [Hx | Hs]%orb_true_iff; [| by apply IH].
  apply Ascii.eqb_eq in Hx as ->. congruence.
Qed.

Lemma str_mem_TrimRight (cutset s : string) (d : ascii) :
  in_cutset cutset d = false → str_mem d s = true →
  str_mem d (strings_TrimRight s cutset) = true.
Proof.
  intros Hd. induction s as [|x s IH]; [done |]. simpl.
  intros [Hx | Hs]%orb_true_iff.
  - apply Ascii.eqb_eq in Hx as ->.
    destruct (strings_TrimRight s cutset); simpl; rewrite ?Hd; simpl;
      by rewrite Ascii.eqb_refl.
  - specialize (IH Hs). destruct (strings_TrimRight s cutset); [done |].
    change (str_mem d (String x (String a s0)))
      with (Ascii.eqb x d || str_mem d (String a s0)).
    rewrite IH. apply orb_true_r.
Qed.

Lemma str_mem_Trim (cutset s : string) (d : ascii) :
  in_cutset cutset d = false → str_mem d s = true →
  str_mem d (strings_Trim s cutset) = true.
Proof.
  intros Hd Hs. unfold strings_Trim.
  by apply str_mem_TrimLeft, str_mem_TrimRight.
Qed.

Lemma str_map_compose (f g : ascii → ascii) (s : string) :
  str_map f (str_map g s) = str_map (λ c, f (g c)) s.
Proof. induction s as [|x s IH]; simpl; [done | by rewrite IH]. Qed.

Lemma str_map_ext (f g : ascii → ascii) (s : string) :
  (∀ c, f c = g c) → str_map f s = str_map g s.
Proof. intros H. induction s as [|x s IH]; simpl; [done | by rewrite H, IH]. Qed.

(** On a name without adjacent dots the loop over [unsafe] acts byte by
    byte. *)
Lemma replace_unsafe_bytewise (s : string) :
  strings_Contains s ".." = false →
  replace_unsafe s = str_map placeholder_byte s.
Proof.
  intros H. unfold replace_unsafe, unsafe, quote. cbn [fold_left].
  rewrite (ReplaceAll_single "/" "_" s) by discriminate.
  rewrite (ReplaceAll_single "\" "_") by discriminate.
  rewrite (ReplaceAll_absent _ ".." "_").
  2:{ do 2 (apply Contains_dotdot_map; [apply subst_underscore_dot |]). done. }
  repeat (rewrite ReplaceAll_single by discriminate).
  rewrite !str_map_compose. apply str_map_ext.
  intros [[] [] [] [] [] [] [] []]; reflexivity.
Qed.

Lemma replace_unsafe_underscore (s : string) :
  strings_Contains s ".." = true → all_in " ." s = true →
  str_mem "_" (replace_unsafe s) = true.
Proof.
  intros Hdd Hall. unfold replace_unsafe, unsafe, quote. cbn [fold_left].
  rewrite (ReplaceAll_absent s "/" "_")
    by (rewrite Contains_single; by apply (all_in_mem " .")).
  rewrite (ReplaceAll_absent s "\" "_")
    by (rewrite Contains_single; by apply (all_in_mem " .")).
  repeat (rewrite ReplaceAll_single by discriminate).
  repeat (apply str_mem_map; [reflexivity |]).
  rewrite <- Contains_single. by apply replace_from_present.
Qed.

Lemma clear_of_edge_ok (cutset : string) (o : option ascii) :
  clear_of cutset o → edge_ok cutset o = true.
Proof.
  intros H. destruct o as [c|]; [| done]. simpl. by rewrite (H c).
Qed.

Lemma edge_ok_clear_of (cutset : string) (o : option ascii) :
  edge_ok cutset o = true → clear_of cutset o.
Proof.
  intros H c ->. simpl in H. by apply negb_true_iff in H.
Qed.

Lemma getUniqueFilename_mono (fuel fuel' : nat) (dir filename : string)
      (w : World) (res : string * World) :
  getUniqueFilename fuel dir filename w = Some res → fuel ≤ fuel' →
  getUniqueFilename fuel' dir filename w = Some res.
Proof.
  intros H Hle.
  destruct (os_IsNotExist
              (stat_result w (filepath_Join dir (sanitizeFilename filename))))
    eqn:E.
  - rewrite getUniqueFilename_free in * by done. done.
  - rewrite getUniqueFilename_taken in * by done.
    by apply (probe_mono fuel).
Qed.

(** [stat_clear] from finitely many look-ups. *)
Lemma stat_clear_cases (w : World) (dir name : string) (n : nat) :
  size (fs w) = n →
  stat_failure w (filepath_Join dir name) = None →
  Forall (λ i : nat,
            stat_failure w (filepath_Join dir (candidate name (Z.of_nat i)))
            = None) (seq 1 (S n)) →
  stat_clear w dir name.
Proof.
  intros Hn Hname Hall. split; [done |]. intros i Hi.
  rewrite Forall_forall in Hall. specialize (Hall (Z.to_nat i)).
  rewrite Z2Nat.id in Hall by lia. apply Hall, elem_of_seq. lia.
Qed.

Ltac stat_clear_by_cases n :=
  apply (stat_clear_cases _ _ _ n);
  [ vm_compute; reflexivity
  | vm_compute; reflexivity
  | repeat (constructor; [vm_compute; reflexivity |]); constructor ].

(** ** Names the file system refuses *)

Lemma element_too_long_over (run : nat) (path : string) :
  255 < run → element_too_long run path = true.
Proof.
  revert run. induction path as [|c path IH]; intros run Hrun;
    cbn [element_too_long].
  - by apply Nat.ltb_lt.
  - destruct (Ascii.eqb c "/").
    + apply orb_true_iff. left. by apply Nat.ltb_lt.
    + apply IH. lia.
Qed.

(** A path that starts with more than 255 bytes without a separator. *)
Lemma element_too_long_element (run : nat) (s rest : string) :
  str_mem "/" s = false → 255 < run + String.length s →
  element_too_long run (s +:+ rest) = true.
Proof.
  revert run. induction s as [|c s IH]; intros run Hs Hlen.
  - apply element_too_long_over. simpl in Hlen. lia.
  - cbn [str_mem] in Hs. apply orb_false_iff in Hs as [Hc Hs].
    cbn [String.append element_too_long]. rewrite Hc.
    apply IH; [done |]. simpl in Hlen. lia.
Qed.

(** An element that is too long stays so behind a directory. *)
Lemma element_too_long_Join (run : nat) (dir name : string) :
  element_too_long 0 name = true →
  element_too_long run (filepath_Join dir name) = true.
Proof.
  unfold filepath_Join. intros H. revert run.
  induction dir as [|c dir IH]; intros run; cbn [String.append element_too_long].
  - rewrite Ascii.eqb_refl, H. apply orb_true_r.
  - destruct (Ascii.eqb c "/"); [| apply IH].
    rewrite IH. apply orb_true_r.
Qed.

(** The file system refuses a file name that starts with more than 255 bytes
    without a separator, in whatever directory. *)
Lemma name_limits_long (dir name rest : string) :
  str_mem "/" name = false → 255 < String.length name →
  is_Some (name_limits (filepath_Join dir (name +:+ rest))).
Proof.
  intros Hs Hlen. unfold name_limits.
  destruct (str_mem "000" _); [by eexists |].
  rewrite element_too_long_Join; [by eexists |].
  by apply element_too_long_element.
Qed.

(** Where [os.Stat] fails on the sanitized name with another error than
    not-exist, or finds the file, and cannot look up any candidate,
    [getUniqueFilename] does not return, whatever the fuel. *)
Lemma getUniqueFilename_never_returns (fuel : nat) (dir filename : string)
      (w : World) :
  os_IsNotExist
    (stat_result w (filepath_Join dir (sanitizeFilename filename))) = false →
  (∀ j : Z, is_Some (stat_failure w
                       (filepath_Join dir
                          (candidate (sanitizeFilename filename) j)))) →
  getUniqueFilename fuel dir filename w = None.
Proof.
  intros Htaken Href. rewrite getUniqueFilename_taken by done.
  by apply probe_refused.
Qed.

Lemma name_256_plain :
  sanitizeFilename name_256 = name_256 ∧
  filepath_Ext name_256 = "" ∧ strings_TrimSuffix name_256 "" = name_256 ∧
  str_mem "/" name_256 = false ∧ String.length name_256 = 256.
Proof. vm_compute. done. Qed.

Lemma name_255_plain :
  sanitizeFilename name_255 = name_255 ∧
  filepath_Ext name_255 = "" ∧ strings_TrimSuffix name_255 "" = name_255 ∧
  str_mem "/" (name_255 +:+ "_") = false ∧
  String.length (name_255 +:+ "_") = 256.
Proof. vm_compute. done. Qed.

(** On a file system with the limits of [name_limits], a name of 256 bytes
    is never resolved, whatever files there are. *)
Lemma name_256_never_resolved (fuel : nat) (dir : string) (w : World) :
  stat_failure w = name_limits →
  getUniqueFilename fuel dir name_256 w = None.
Proof.
  intros Hsf.
  destruct name_256_plain as (Hsan & Hext & Hbase & Hsep & Hlen).
  assert (∀ rest, is_Some (stat_failure w
                             (filepath_Join dir (name_256 +:+ rest)))) as Href.
  { intros rest. rewrite Hsf. apply name_limits_long; [done | lia]. }
  apply getUniqueFilename_never_returns.
  - rewrite Hsan. unfold stat_result.
    destruct (Href "") as [msg Hmsg]. rewrite str_app_nil_r in Hmsg.
    by rewrite Hmsg.
  - intros j. rewrite Hsan. unfold candidate, Sprintf_s_d_s.
    rewrite Hext, Hbase. apply Href.
Qed.

(** * The claims of the specification *)

(** ** Sanitization *)

(** C1, as the program has it: [sanitizeFilename] replaces the sequences of
    [unsafe] by the placeholder, one pattern after the other, so that none of
    them is left; it then trims spaces and dots from both ends and returns the
    default name if nothing remains.  Hence the result holds none of the
    unsafe sequences, in particular no path separator and no [..], and is
    never empty; ["../../etc/passwd"] becomes ["____etc_passwd"].  A name of
    spaces and dots only becomes the default name exactly when no two of its
    dots are adjacent (two adjacent dots are replaced by a placeholder, which
    the trimming keeps).  On a name without adjacent dots the replacement is
    byte by byte. *)
Theorem sanitizeFilename_spec (s : string) :
  Forall (λ u, strings_Contains (replace_unsafe s) u = false) unsafe ∧
  sanitizeFilename s =
    (if String.eqb (strings_Trim (replace_unsafe s) " .") "" then default_name
     else strings_Trim (replace_unsafe s) " .") ∧
  Forall (λ u, strings_Contains (sanitizeFilename s) u = false) unsafe ∧
  strings_Contains (sanitizeFilename s) "/" = false ∧
  strings_Contains (sanitizeFilename s) "\" = false ∧
  strings_Contains (sanitizeFilename s) ".." = false ∧
  sanitizeFilename s ≠ "" ∧
  sanitizeFilename "../../etc/passwd" = "____etc_passwd" ∧
  (all_in " ." s = true →
   (sanitizeFilename s = default_name ↔ strings_Contains s ".." = false)) ∧
  (strings_Contains s ".." = false →
   replace_unsafe s = str_map placeholder_byte s).
Proof.
  split_and!.
  - apply Forall_forall. intros u Hu. by apply replace_unsafe_clean.
  - reflexivity.
  - apply Forall_forall. intros u Hu. by apply sanitizeFilename_clean.
  - apply sanitizeFilename_clean. unfold unsafe. set_solver.
  - apply sanitizeFilename_clean. unfold unsafe. set_solver.
  - apply sanitizeFilename_clean. unfold unsafe. set_solver.
  - apply sanitizeFilename_nonempty.
  - reflexivity.
  - intros Hall. split.
    + intros Hdef. apply not_true_is_false. intros Hdd.
      pose proof (replace_unsafe_underscore s Hdd Hall) as Hu.
      apply (str_mem_Trim " .") in Hu; [| reflexivity].
      destruct (sanitizeFilename_cases s) as [[Ht _] | [_ Ht]].
      * by rewrite Ht in Hu.
      * rewrite <- Ht, Hdef in Hu. discriminate Hu.
    + intros Hdd. unfold sanitizeFilename.
      rewrite replace_unsafe_bytewise by done.
      assert (str_map placeholder_byte s = s) as ->.
      { clear Hdd. induction s as [|x s IH]; [done |]. simpl in *.
        apply andb_true_iff in Hall as [Hx Hs]. rewrite (IH Hs). f_equal.
        rewrite orb_false_r in Hx. apply orb_true_iff in Hx.
        by destruct Hx as [->%Ascii.eqb_eq | ->%Ascii.eqb_eq]. }
      unfold strings_Trim. by rewrite all_in_TrimRight.
  - apply replace_unsafe_bytewise.
Qed.

(** The default-name part of [sanitizeFilename_spec] at the name [" . "]. *)
Lemma sanitizeFilename_spec_witness :
  all_in " ." " . " = true ∧ strings_Contains " . " ".." = false ∧
  sanitizeFilename " . " = default_name.
Proof.
  split; [reflexivity |]. split; [reflexivity |].
  destruct (sanitizeFilename_spec " . ") as (_ & _ & _ & _ & _ & _ & _ & _ & H & _).
  apply H; reflexivity.
Defined.

(** C1 as the specification words it fails: [".."] is a name of dots only,
    and it is sanitized to ["_"], not to the default name. *)
Lemma sanitizeFilename_dots_not_default :
  all_in " ." ".." = true ∧
  sanitizeFilename ".." = "_" ∧
  sanitizeFilename ".." ≠ default_name.
Proof. split_and!; [reflexivity | reflexivity | discriminate]. Qed.

(** C8: [sanitizeFilename] is idempotent; each of its results is free of the
    unsafe sequences and has no space or dot at either end (the default name
    included), and is therefore left as it is by a second sanitization. *)
Theorem sanitizeFilename_idempotent (s : string) :
  sanitizeFilename (sanitizeFilename s) = sanitizeFilename s ∧
  Forall (λ u, strings_Contains (sanitizeFilename s) u = false) unsafe ∧
  edge_ok " ." (str_head (sanitizeFilename s)) = true ∧
  edge_ok " ." (str_last (sanitizeFilename s)) = true ∧
  sanitizeFilename default_name = default_name.
Proof.
  destruct (sanitizeFilename_edges s) as [Hh Hl].
  split_and!.
  - apply sanitizeFilename_fixed; try done.
    + intros u Hu. by apply sanitizeFilename_clean.
    + apply sanitizeFilename_nonempty.
  - apply Forall_forall. intros u Hu. by apply sanitizeFilename_clean.
  - by apply clear_of_edge_ok.
  - by apply clear_of_edge_ok.
  - reflexivity.
Qed.

(** ** Collision resolution *)

(** C2, where the program departs from it: in an empty uploads directory no
    file has the 256-byte name [name_256], which sanitization leaves as it
    is, so the claim has [getUniqueFilename] return that name.  The program
    does not: [os.Stat] fails on the path with `file name too long', which is
    not a not-exist error, the program takes the name for taken, and every
    candidate of its probe loop is refused in the same way, so it returns
    nothing, whatever the fuel. *)
Theorem getUniqueFilename_free_name_not_returned :
  sanitizeFilename name_256 = name_256 ∧
  fs (world_of ∅) !! filepath_Join "uploads" name_256 = None ∧
  stat_result (world_of ∅) (filepath_Join "uploads" name_256)
  = Some (ErrOther "file name too long") ∧
  os_IsNotExist (Some (ErrOther "file name too long")) = false ∧
  ∀ fuel : nat,
    getUniqueFilename fuel "uploads" name_256 (world_of ∅) = None.
Proof.
  split_and!; [by vm_compute | done | by vm_compute | done |].
  intros fuel. by apply name_256_never_resolved.
Qed.

(** C9, where the program departs from it: the uploads directory holds one
    file, of the 255-byte name [name_255], and none of the candidates
    [base_1], [base_2], ... exists.  The probe loop still reaches no free
    name: every candidate has more than 255 bytes, [os.Stat] fails on it
    with `file name too long', and the loop takes that for a file that
    exists; [getUniqueFilename] returns nothing, whatever the fuel. *)
Theorem getUniqueFilename_taken_name_never_returns :
  sanitizeFilename name_255 = name_255 ∧
  size (fs world_255) = 1 ∧
  exists_in world_255 "uploads" name_255 ∧
  (∀ i : Z, ¬ exists_in world_255 "uploads" (candidate name_255 i)) ∧
  (∀ i : Z, ∃ msg : string,
     stat_result world_255 (filepath_Join "uploads" (candidate name_255 i))
     = Some (ErrOther msg)) ∧
  ∀ fuel : nat, getUniqueFilename fuel "uploads" name_255 world_255 = None.
Proof.
  destruct name_255_plain as (Hsan & Hext & Hbase & Hsep & Hlen).
  assert (∀ i : Z,
    is_Some (name_limits (filepath_Join "uploads" (candidate name_255 i))))
    as Href.
  { intros i. unfold candidate, Sprintf_s_d_s. rewrite Hext, Hbase.
    rewrite <- str_app_assoc. apply name_limits_long; [done | lia]. }
  split_and!.
  - exact Hsan.
  - apply map_size_singleton.
  - unfold exists_in, world_255. simpl. rewrite lookup_singleton_eq. by eexists.
  - intros i. unfold exists_in, world_255. simpl.
    rewrite lookup_singleton_ne; [by intros [? ?] |].
    intros H%filepath_Join_inj. by apply (candidate_not_name name_255 i).
  - intros i. destruct (Href i) as [msg Hmsg]. exists msg.
    unfold stat_result, world_255. simpl. by rewrite Hmsg.
  - intros fuel. apply getUniqueFilename_never_returns.
    + rewrite Hsan. by vm_compute.
    + intros j. rewrite Hsan. exact (Href j).
Qed.

(** Collision resolution where [os.Stat] can look up the names it is asked
    for: given that, more fuel than there are files, and fewer files than
    [int] has positive values, [getUniqueFilename] returns the sanitized name
    when no file of that name exists in the directory, and otherwise
    [base_i ext] for the smallest [i >= 1] for which no such file exists,
    where [base + ext] is the sanitized name and [ext] is empty when the name
    has no dot and otherwise starts at its last dot.  With [report.txt] present the name
    [report.txt] resolves to [report_1.txt], and with [report_1.txt] present
    too, to [report_2.txt]. *)
Theorem getUniqueFilename_spec (fuel : nat) (dir filename : string) (w : World) :
  (Z.of_nat (size (fs w)) < int_max)%Z → size (fs w) < fuel →
  stat_clear w dir (sanitizeFilename filename) →
  ∃ (final : string) (w' : World),
    getUniqueFilename fuel dir filename w = Some (final, w') ∧
    fs w' = fs w ∧
    (¬ exists_in w dir (sanitizeFilename filename) →
     final = sanitizeFilename filename) ∧
    (exists_in w dir (sanitizeFilename filename) →
     ∃ i : Z,
       (1 ≤ i)%Z ∧
       final = candidate (sanitizeFilename filename) i ∧
       ¬ exists_in w dir (candidate (sanitizeFilename filename) i) ∧
       ∀ j : Z, (1 ≤ j < i)%Z →
         exists_in w dir (candidate (sanitizeFilename filename) j)) ∧
    (∀ i : Z,
       candidate (sanitizeFilename filename) i =
       strings_TrimSuffix (sanitizeFilename filename)
                          (filepath_Ext (sanitizeFilename filename))
       +:+ "_" +:+ pretty i +:+ filepath_Ext (sanitizeFilename filename)) ∧
    strings_TrimSuffix (sanitizeFilename filename)
                       (filepath_Ext (sanitizeFilename filename))
    +:+ filepath_Ext (sanitizeFilename filename) = sanitizeFilename filename ∧
    ((filepath_Ext (sanitizeFilename filename) = "" ∧
      str_mem "." (sanitizeFilename filename) = false)
     ∨ (∃ e, filepath_Ext (sanitizeFilename filename) = "." +:+ e ∧
             str_mem "." e = false)) ∧
    (filename = "report.txt" → exists_in w dir "report.txt" →
     ¬ exists_in w dir "report_1.txt" → final = "report_1.txt") ∧
    (filename = "report.txt" → exists_in w dir "report.txt" →
     exists_in w dir "report_1.txt" → ¬ exists_in w dir "report_2.txt" →
     final = "report_2.txt").
Proof.
  intros Hmax Hfuel Hclear.
  assert (∃ (final : string) (w' : World),
    getUniqueFilename fuel dir filename w = Some (final, w') ∧
    fs w' = fs w ∧
    (¬ exists_in w dir (sanitizeFilename filename) →
     final = sanitizeFilename filename) ∧
    (exists_in w dir (sanitizeFilename filename) →
     ∃ i : Z,
       (1 ≤ i)%Z ∧
       final = candidate (sanitizeFilename filename) i ∧
       ¬ exists_in w dir (candidate (sanitizeFilename filename) i) ∧
       ∀ j : Z, (1 ≤ j < i)%Z →
         exists_in w dir (candidate (sanitizeFilename filename) j)))
    as (final & w' & Hrun & Hfs & Hfree & Htaken).
  { destruct (getUniqueFilename_result fuel dir filename w Hmax Hfuel Hclear)
      as [[Hnone Hrun] | [Hsome (k & w' & Hrun & Hk & Hbelow & Hfs & _)]].
    - eexists _, _. split_and!; [exact Hrun | done | done |].
      intros [data Hd]. unfold exists_in in *. congruence.
    - exists (candidate (sanitizeFilename filename) (1 + Z.of_nat k)), w'.
      split_and!; [done | done | by intros [] |].
      intros _. exists (1 + Z.of_nat k)%Z. split_and!; [lia | done | |].
      + unfold exists_in. rewrite Hk. by intros [? ?].
      + intros j Hj. unfold exists_in.
        replace j with (1 + Z.of_nat (Z.to_nat (j - 1)))%Z by lia.
        apply Hbelow. lia. }
  exists final, w'. split_and!; try done.
  - apply base_ext_join.
  - destruct (filepath_Ext_spec (sanitizeFilename filename))
      as [[He Hdot] | (b & e & _ & He & Hdot & _)].
    + left. split; [done |]. apply Hdot.
      rewrite <- Contains_single. apply sanitizeFilename_clean.
      unfold unsafe. set_solver.
    + right. by exists e.
  - intros -> Hr Hr1. change (sanitizeFilename "report.txt") with "report.txt" in *.
    destruct (Htaken Hr) as (i & Hi & -> & _ & Hbelow).
    destruct (decide (i = 1%Z)) as [-> | Hne]; [reflexivity |].
    destruct Hr1. apply (Hbelow 1%Z). lia.
  - intros -> Hr Hr1 Hr2.
    change (sanitizeFilename "report.txt") with "report.txt" in *.
    destruct (Htaken Hr) as (i & Hi & -> & Hfree_i & Hbelow).
    destruct (decide (i = 1%Z)) as [-> | Hne1]; [by destruct Hfree_i |].
    destruct (decide (i = 2%Z)) as [-> | Hne2]; [reflexivity |].
    destruct Hr2. apply (Hbelow 2%Z). lia.
Qed.

(** [getUniqueFilename_spec] in a directory that holds [report.txt]: the
    second [report.txt] is given the name [report_1.txt]. *)
Lemma getUniqueFilename_spec_witness :
  (Z.of_nat (size (fs (world_of {[ "uploads/report.txt" := "first" ]})))
   < int_max)%Z ∧
  size (fs (world_of {[ "uploads/report.txt" := "first" ]})) < 2 ∧
  stat_clear (world_of {[ "uploads/report.txt" := "first" ]}) "uploads"
             (sanitizeFilename "report.txt") ∧
  ∃ w', getUniqueFilename 2 "uploads" "report.txt"
          (world_of {[ "uploads/report.txt" := "first" ]})
        = Some ("report_1.txt", w').
Proof.
  split; [vm_compute; reflexivity |].
  split; [vm_compute; lia |].
  split; [stat_clear_by_cases 1 |].
  destruct (getUniqueFilename_spec 2 "uploads" "report.txt"
              (world_of {[ "uploads/report.txt" := "first" ]}))
    as (final & w' & Hrun & _ & _ & _ & _ & _ & _ & H1 & _).
  - vm_compute; reflexivity.
  - vm_compute; lia.
  - stat_clear_by_cases 1.
  - exists w'. rewrite Hrun. f_equal. f_equal. apply H1.
    + reflexivity.
    + vm_compute. eexists. reflexivity.
    + vm_compute. intros [x Hx]. discriminate Hx.
Defined.

(** Termination where [os.Stat] can look up the names it is asked for:
    given that, more fuel than there are files, and fewer files than [int]
    has positive values, the probe loop of [getUniqueFilename] finishes; the
    name it returns is the name of no file of the directory, which the
    probing leaves as it is; more fuel gives the same result. *)
Theorem getUniqueFilename_terminates (fuel : nat) (dir filename : string)
        (w : World) :
  (Z.of_nat (size (fs w)) < int_max)%Z → size (fs w) < fuel →
  stat_clear w dir (sanitizeFilename filename) →
  ∃ (final : string) (w' : World),
    getUniqueFilename fuel dir filename w = Some (final, w') ∧
    ¬ exists_in w dir final ∧
    fs w' = fs w ∧
    ∀ fuel' : nat, size (fs w) < fuel' →
      getUniqueFilename fuel' dir filename w = Some (final, w').
Proof.
  intros Hmax Hfuel Hclear.
  assert (∃ (final : string) (w' : World),
    getUniqueFilename (S (size (fs w))) dir filename w = Some (final, w') ∧
    ¬ exists_in w dir final ∧ fs w' = fs w) as (final & w' & Hrun & Hfree & Hfs).
  { destruct (getUniqueFilename_result (S (size (fs w))) dir filename w Hmax)
      as [[Hnone Hrun] | [Hsome (k & w' & Hrun & Hk & _ & Hfs & _)]];
      [lia | done | |].
    - eexists _, _. split_and!; [exact Hrun | | done].
      unfold exists_in. rewrite Hnone. by intros [? ?].
    - eexists _, w'. split_and!; [exact Hrun | | done].
      unfold exists_in. rewrite Hk. by intros [? ?]. }
  exists final, w'. split_and!; try done.
  - apply (getUniqueFilename_mono (S (size (fs w)))); [done | lia].
  - intros fuel' Hfuel'.
    apply (getUniqueFilename_mono (S (size (fs w)))); [done | lia].
Qed.

(** [getUniqueFilename_terminates] in a directory that holds [report.txt] and
    [report_1.txt]. *)
Lemma getUniqueFilename_terminates_witness :
  (Z.of_nat (size (fs (world_of {[ "uploads/report.txt" := "first";
                                   "uploads/report_1.txt" := "second" ]})))
   < int_max)%Z ∧
  size (fs (world_of {[ "uploads/report.txt" := "first";
                        "uploads/report_1.txt" := "second" ]})) < 3 ∧
  stat_clear (world_of {[ "uploads/report.txt" := "first";
                          "uploads/report_1.txt" := "second" ]}) "uploads"
             (sanitizeFilename "report.txt") ∧
  ∃ final w',
    getUniqueFilename 3 "uploads" "report.txt"
      (world_of {[ "uploads/report.txt" := "first";
                   "uploads/report_1.txt" := "second" ]})
    = Some (final, w') ∧
    ¬ exists_in (world_of {[ "uploads/report.txt" := "first";
                             "uploads/report_1.txt" := "second" ]})
        "uploads" final.
Proof.
  split; [vm_compute; reflexivity |].
  split; [vm_compute; lia |].
  split; [stat_clear_by_cases 2 |].
  destruct (getUniqueFilename_terminates 3 "uploads" "report.txt"
              (world_of {[ "uploads/report.txt" := "first";
                           "uploads/report_1.txt" := "second" ]}))
    as (final & w' & Hrun & Hfree & _).
  - vm_compute; reflexivity.
  - vm_compute; lia.
  - stat_clear_by_cases 2.
  - by exists final, w'.
Defined.

(** ** The finalizer *)

Lemma probe_stat_failure (fuel : nat) (dir base ext : string) (i : Z)
      (w w' : World) (r : string) :
  probe fuel dir base ext i w = Some (r, w') → stat_failure w' = stat_failure w.
Proof.
  revert i w. induction fuel as [|fuel IH]; intros i w H; [done |].
  rewrite probe_step in H. cbv zeta in H.
  destruct (os_IsNotExist _).
  - by injection H as <- <-.
  - by apply IH in H.
Qed.

Lemma getUniqueFilename_stat_failure (fuel : nat) (dir filename : string)
      (w w' : World) (r : string) :
  getUniqueFilename fuel dir filename w = Some (r, w') →
  stat_failure w' = stat_failure w.
Proof.
  destruct (os_IsNotExist
              (stat_result w (filepath_Join dir (sanitizeFilename filename))))
    eqn:E.
  - rewrite getUniqueFilename_free by done. by intros [= <- <-].
  - rewrite getUniqueFilename_taken by done.
    intros H. by apply probe_stat_failure in H.
Qed.

(** [getUniqueFilename] only looks at the file system, and the name it
    returns is free. *)
Lemma getUniqueFilename_frame (fuel : nat) (dir filename : string) (w : World) :
  (Z.of_nat (size (fs w)) < int_max)%Z → size (fs w) < fuel →
  stat_clear w dir (sanitizeFilename filename) →
  ∃ (final : string) (w2 : World) (stats : list Syscall),
    getUniqueFilename fuel dir filename w = Some (final, w2) ∧
    fs w !! filepath_Join dir final = None ∧
    fs w2 = fs w ∧ stat_failure w2 = stat_failure w ∧
    rename_errors w2 = rename_errors w ∧ logs w2 = logs w ∧
    calls w2 = calls w ++ stats ∧ Forall (λ c, is_stat c = true) stats.
Proof.
  intros Hmax Hfuel Hclear.
  destruct (getUniqueFilename_result fuel dir filename w Hmax Hfuel Hclear)
    as [[Hnone Hrun] |
        [Hsome (k & w' & Hrun & Hk & _ & Hfs & Hre & Hlog & Hc)]].
  - eexists _, _, [_]. split_and!; [exact Hrun | done .. |].
    by repeat constructor.
  - pose proof (getUniqueFilename_stat_failure _ _ _ _ _ _ Hrun) as Hsf.
    eexists _, w', _. split_and!; [exact Hrun | done .. | exact Hc |].
    constructor; [done |]. unfold probe_calls.
    apply Forall_fmap, Forall_forall. by intros j _.
Qed.


Section FinalizerClaims.

Variable uploadsDir : string.

Lemma loop_continues (fuel : nat) (event : HookEvent)
      (rest : list HookEvent) (w w' : World) :
  handleCompletedUpload uploadsDir fuel event w = Some (tt, w') →
  handleCompletedUploads uploadsDir fuel (event :: rest) w =
  handleCompletedUploads uploadsDir fuel rest w'.
Proof. intros H. cbn [handleCompletedUploads]. by rewrite (bind_Some _ _ _ _ _ H). Qed.




(** C10: a completion event whose [filename] entry is the empty string is
    handled exactly as one without the entry: the finalizer does the same
    in both cases, which is to write the two log records and to make no
    file-system call (no probing for a free name, no rename), leaving every
    file where it is. *)
Theorem finalizer_empty_filename (fuel : nat) (id : string)
        (m1 m2 : gmap string string) (w : World) :
  m1 !! "filename" = Some "" → m2 !! "filename" = None →
  handleCompletedUpload uploadsDir fuel (mkHookEvent (mkFileInfo id m1)) w =
  handleCompletedUpload uploadsDir fuel (mkHookEvent (mkFileInfo id m2)) w ∧
  ∃ w' : World,
    handleCompletedUpload uploadsDir fuel (mkHookEvent (mkFileInfo id m1)) w
    = Some (tt, w') ∧
    fs w' = fs w ∧ calls w' = calls w ∧
    logs w' = logs w ++ [log_finished id ""; log_no_filename id].
Proof.
  intros H1 H2.
  assert (originalFilename_of (mkHookEvent (mkFileInfo id m1)) = "") as E1
    by (unfold originalFilename_of; simpl; by rewrite H1).
  assert (originalFilename_of (mkHookEvent (mkFileInfo id m2)) = "") as E2
    by (unfold originalFilename_of; simpl; by rewrite H2).
  rewrite (handle_no_filename uploadsDir fuel _ w E1).
  rewrite (handle_no_filename uploadsDir fuel _ w E2).
  split; [done |]. eexists. split_and!; [reflexivity | done | done |].
  simpl. by rewrite <- app_assoc.
Qed.

End FinalizerClaims.


(** C4, where the program departs from it: the completion event of the
    upload [X] carries the 256-byte filename [name_256] and the data file
    [X] is missing, a finalization that the claim has logged and passed
    over.  The program calls [getUniqueFilename] before it looks for the
    data file, and that call does not return: the pass ends in no state,
    whatever the fuel, so the failure is not logged and the loop takes no
    further event, whatever events follow. *)
Theorem finalizer_missing_file_stops_loop :
  originalFilename_of (event_of "X" name_256) = name_256 ∧
  fs (world_of ∅) !! filepath_Join "uploads" "X" = None ∧
  stat_result (world_of ∅) (filepath_Join "uploads" "X") = Some ErrNotExist ∧
  (∀ fuel : nat,
     handleCompletedUpload "uploads" fuel (event_of "X" name_256) (world_of ∅)
     = None) ∧
  ∀ (fuel : nat) (rest : list HookEvent),
    handleCompletedUploads "uploads" fuel (event_of "X" name_256 :: rest)
      (world_of ∅) = None.
Proof.
  assert (originalFilename_of (event_of "X" name_256) = name_256) as Hname
    by (by vm_compute).
  assert (∀ fuel : nat,
    handleCompletedUpload "uploads" fuel (event_of "X" name_256) (world_of ∅)
    = None) as Hpass.
  { intros fuel. apply handle_stuck.
    - rewrite Hname. by vm_compute.
    - rewrite Hname. by apply name_256_never_resolved. }
  split_and!; [exact Hname | done | by vm_compute | exact Hpass |].
  intros fuel rest. cbn [handleCompletedUploads].
  by apply bind_None.
Qed.

(** C3 does not hold of the program: the completed upload [X] of [a.txt],
    stored as the file [X] with its record [X.info], is renamed to [a.txt] by
    the finalizer (one [os.Rename], which succeeds), and the record [X.info]
    is still in the store afterwards. *)
Lemma finalizer_success_record_not_deleted :
  ∃ w',
    handleCompletedUpload "uploads" 3 (event_of "X" "a.txt")
      (world_of {[ "uploads/X" := "0123456789"; "uploads/X.info" := "{}" ]})
    = Some (tt, w') ∧
    fs w' !! "uploads/a.txt" = Some "0123456789" ∧
    fs w' !! "uploads/X" = None ∧
    calls w' = [SysStat "uploads/a.txt"; SysStat "uploads/X";
                SysRename "uploads/X" "uploads/a.txt"] ∧
    fs w' !! infoPath "uploads" "X" = Some "{}" ∧
    fs w' !! infoPath "uploads" "X" ≠ None.
Proof.
  eexists. split; [vm_compute; reflexivity |].
  split_and!; [reflexivity .. | discriminate].
Qed.



(** [finalizer_empty_filename] for the metadata [filename = ""] and the empty
    metadata. *)
Lemma finalizer_empty_filename_witness :
  ({[ "filename" := "" ]} : gmap string string) !! "filename" = Some "" ∧
  (∅ : gmap string string) !! "filename" = None ∧
  handleCompletedUpload "uploads" 0
    (mkHookEvent (mkFileInfo "X" {[ "filename" := "" ]}))
    (world_of {[ "uploads/X" := "0123456789" ]}) =
  handleCompletedUpload "uploads" 0 (mkHookEvent (mkFileInfo "X" ∅))
    (world_of {[ "uploads/X" := "0123456789" ]}).
Proof.
  split; [reflexivity |]. split; [reflexivity |].
  apply (finalizer_empty_filename "uploads" 0 "X" {[ "filename" := "" ]} ∅
           (world_of {[ "uploads/X" := "0123456789" ]}));
    reflexivity.
Defined.

(** ** The engine of the specification *)

(** C6, on the engine as the specification describes it: an [Append] whose
    [expectedOffset] is not the recorded offset of the upload fails with
    [Conflict] and returns the store it was given, whether the expected
    offset is behind or ahead of the recorded one; the Content Store rejects
    such a write as well. *)
Theorem Append_offset_mismatch (id : string) (expectedOffset : nat)
        (bytes : list Byte.byte) (st : Engine.Store) (u : Engine.Upload) :
  Engine.uploads st !! id = Some u →
  expectedOffset ≠ Engine.offset u →
  Engine.Append id expectedOffset bytes st = (inl Engine.Conflict, st) ∧
  (expectedOffset ≠
     Engine.recorded_offset (Engine.contents st) (Engine.storageLocator u) →
   Engine.content_append (Engine.storageLocator u) expectedOffset bytes
                         (Engine.contents st) = inl Engine.Conflict).
Proof.
  intros Hu Hne. split.
  - unfold Engine.Append. rewrite Hu.
    apply Nat.eqb_neq in Hne. by rewrite Hne.
  - intros Hc. unfold Engine.content_append. by rewrite decide_False.
Qed.

(** ** The order of processing *)

Lemma probe_logs (fuel : nat) (dir base ext : string) (i : Z) (w w' : World)
      (r : string) :
  probe fuel dir base ext i w = Some (r, w') → logs w' = logs w.
Proof.
  revert i w. induction fuel as [|fuel IH]; intros i w H; [done |].
  rewrite probe_step in H. cbv zeta in H.
  destruct (os_IsNotExist _).
  - by injection H as <- <-.
  - by apply IH in H.
Qed.

Lemma getUniqueFilename_logs (fuel : nat) (dir filename : string)
      (w w' : World) (r : string) :
  getUniqueFilename fuel dir filename w = Some (r, w') → logs w' = logs w.
Proof.
  destruct (os_IsNotExist
              (stat_result w (filepath_Join dir (sanitizeFilename filename))))
    eqn:E.
  - rewrite getUniqueFilename_free by done. by intros [= <- <-].
  - rewrite getUniqueFilename_taken by done.
    intros H. by apply probe_logs in H.
Qed.

(** Each pass of the loop writes the record of the completed upload and one
    more record. *)
Lemma handleCompletedUpload_logs (uploadsDir : string) (fuel : nat)
      (event : HookEvent) (w w' : World) :
  handleCompletedUpload uploadsDir fuel event w = Some (tt, w') →
  ∃ r, logs w' = logs w ++
         [log_finished (ID (Upload event)) (originalFilename_of event); r] ∧
       log_msg r ≠ "Upload finished".
Proof.
  destruct (decide (originalFilename_of event = "")) as [Hempty | Hname].
  - rewrite handle_no_filename by done. intros [= <-].
    eexists. split; [simpl; rewrite Hempty; by rewrite <- app_assoc | done].
  - destruct (getUniqueFilename fuel uploadsDir (originalFilename_of event)
                (add_log (log_finished (ID (Upload event))
                                       (originalFilename_of event)) w))
      as [[final w2]|] eqn:Hrun.
    + pose proof (getUniqueFilename_logs _ _ _ _ _ _ Hrun) as Hlog.
      rewrite (handle_with_filename uploadsDir fuel event w w2 final Hname Hrun).
      cbv zeta. simpl in Hlog.
      destruct (stat_result w2 _);
        [| destruct (rename_errors w2) as [|[e|] rest];
           destruct (fs w2 !! filepath_Join uploadsDir (ID (Upload event)))];
        intros [= <-]; eexists;
        (split; [simpl; rewrite Hlog; by rewrite <- app_assoc | done]).
    + by rewrite handle_stuck.
Qed.

(** The loop handles the events one after the other, each once, in the order
    of the list: the records of completed uploads it writes are those of the
    events, in that order. *)
Lemma handleCompletedUploads_in_order (uploadsDir : string) (fuel : nat)
      (events : list HookEvent) (w w' : World) :
  handleCompletedUploads uploadsDir fuel events w = Some (tt, w') →
  ∃ new, logs w' = logs w ++ new ∧
         finished_records new =
         (λ ev, log_finished (ID (Upload ev)) (originalFilename_of ev))
           <$> events.
Proof.
  revert w. induction events as [|ev events IH]; intros w H.
  - injection H as <-. exists []. by rewrite app_nil_r.
  - cbn [handleCompletedUploads] in H. unfold mbind, M_bind in H.
    destruct (handleCompletedUpload uploadsDir fuel ev w) as [[[] w1]|] eqn:E;
      [| done].
    apply handleCompletedUpload_logs in E as (r & Hlog & Hr).
    apply IH in H as (new & Hnew & Hfin).
    exists ([log_finished (ID (Upload ev)) (originalFilename_of ev); r] ++ new).
    split; [by rewrite Hnew, Hlog, <- app_assoc |].
    unfold finished_records in *. rewrite filter_app, Hfin.
    rewrite filter_cons_True by done. rewrite filter_cons_False by done.
    done.
Qed.

(** [Append_offset_mismatch] on an upload with 5 bytes received, for an
    expected offset behind (3) and one ahead (7). *)
Lemma Append_offset_mismatch_witness :
  Engine.uploads store_example !! "X" =
    Some (Engine.mkUpload (Some 10) 5 {[ "filename" := "a.txt" ]} "X"
                          Engine.InProgress) ∧
  3 ≠ 5 ∧ 7 ≠ 5 ∧
  Engine.Append "X" 3 [Byte.x21] store_example
    = (inl Engine.Conflict, store_example) ∧
  Engine.Append "X" 7 [Byte.x21] store_example
    = (inl Engine.Conflict, store_example).
Proof.
  split; [reflexivity |]. split; [lia |]. split; [lia |]. split.
  - apply (Append_offset_mismatch "X" 3 [Byte.x21] store_example
             (Engine.mkUpload (Some 10) 5 {[ "filename" := "a.txt" ]} "X"
                              Engine.InProgress)).
    + reflexivity.
    + simpl. lia.
  - apply (Append_offset_mismatch "X" 7 [Byte.x21] store_example
             (Engine.mkUpload (Some 10) 5 {[ "filename" := "a.txt" ]} "X"
                              Engine.InProgress)).
    + reflexivity.
    + simpl. lia.
Defined.

(** * Further properties of the program *)

(** ** [sanitizeFilename] *)

(** A name is returned as it is exactly when there is nothing to sanitize: it
    holds no unsafe sequence, is not empty, and neither begins nor ends with
    a space or a dot. *)
Theorem sanitizeFilename_unchanged_iff (s : string) :
  sanitizeFilename s = s ↔
  Forall (λ u, strings_Contains s u = false) unsafe ∧
  s ≠ "" ∧
  edge_ok " ." (str_head s) = true ∧
  edge_ok " ." (str_last s) = true.
Proof.
  split.
  - intros H. rewrite <- H.
    destruct (sanitizeFilename_edges s) as [Hh Hl].
    split_and!.
    + apply Forall_forall. intros u Hu. by apply sanitizeFilename_clean.
    + apply sanitizeFilename_nonempty.
    + by apply clear_of_edge_ok.
    + by apply clear_of_edge_ok.
  - intros (Hc & Hne & Hh & Hl).
    apply sanitizeFilename_fixed; [| done | by apply edge_ok_clear_of ..].
    by apply Forall_forall.
Qed.

Lemma replace_unsafe_mem (d : ascii) (s : string) :
  d ≠ "_"%char → str_mem d s = false → str_mem d (replace_unsafe s) = false.
Proof.
  intros Hd. unfold replace_unsafe. generalize unsafe as pats.
  intros pats. revert s. induction pats as [|p pats IH]; intros s Hs; [done |].
  cbn [fold_left]. apply IH, ReplaceAll_mem; [done |].
  simpl. rewrite orb_false_r. apply Ascii.eqb_neq. congruence.
Qed.

Lemma str_mem_Trim_inv (cutset s : string) (d : ascii) :
  str_mem d (strings_Trim s cutset) = true → str_mem d s = true.
Proof.
  unfold strings_Trim. intros H.
  destruct (TrimRight_prefix s cutset) as [b Hb].
  destruct (TrimLeft_suffix (strings_TrimRight s cutset) cutset) as [a Ha].
  rewrite Hb, Ha, !str_mem_app, H. by rewrite orb_true_r.
Qed.

(** Sanitizing invents no bytes: a byte of the result is the placeholder or
    a byte of the given name, unless the result is the default name. *)
Theorem sanitizeFilename_bytes (s : string) (d : ascii) :
  str_mem d (sanitizeFilename s) = true →
  d = "_"%char ∨ str_mem d s = true ∨ sanitizeFilename s = default_name.
Proof.
  intros H. destruct (sanitizeFilename_cases s) as [[_ Hs] | [_ Hs]];
    [by right; right |].
  rewrite Hs in H. apply str_mem_Trim_inv in H.
  destruct (decide (d = "_"%char)) as [| Hd]; [by left |].
  right; left. destruct (str_mem d s) eqn:E; [done |].
  by rewrite (replace_unsafe_mem d s Hd E) in H.
Qed.

Lemma sanitizeFilename_bytes_witness :
  str_mem "b" (sanitizeFilename "a/b") = true ∧
  ("b"%char = "_"%char ∨ str_mem "b" "a/b" = true ∨
   sanitizeFilename "a/b" = default_name).
Proof.
  split; [reflexivity |]. apply (sanitizeFilename_bytes "a/b" "b"). reflexivity.
Defined.

Lemma replace_from_length (k : nat) (old new s : string) :
  String.length new ≤ String.length old → old ≠ "" →
  String.length (replace_from k old new s) ≤ String.length s - k.
Proof.
  intros Hlen Hold. revert k. induction s as [|c s IH]; intros k; [simpl; lia |].
  destruct k as [|k]; cbn [replace_from]; [| apply IH].
  destruct (strings_HasPrefix (String c s) old) eqn:Hp.
  - apply HasPrefix_spec in Hp as [t Ht].
    apply (f_equal String.length) in Ht. rewrite str_app_length in Ht.
    rewrite str_app_length. specialize (IH (String.length old - 1)).
    assert (0 < String.length old) by (destruct old; [done | simpl; lia]).
    simpl in *. lia.
  - specialize (IH 0). simpl. lia.
Qed.

Lemma replace_unsafe_length (s : string) :
  String.length (replace_unsafe s) ≤ String.length s.
Proof.
  assert (∀ pats t,
    Forall (λ p, 1 ≤ String.length p) pats →
    String.length
      (fold_left (λ sanitized char, strings_ReplaceAll sanitized char "_")
                 pats t) ≤ String.length t) as Hfold.
  { intros pats. induction pats as [|p pats IH]; intros t Hp; [done |].
    apply Forall_cons in Hp as [Hp Hps]. cbn [fold_left].
    etrans; [by apply IH |]. unfold strings_ReplaceAll.
    destruct (String.eqb p "_"); [done |].
    destruct p as [|x p]; [done |].
    pose proof (replace_from_length 0 (String x p) "_" t) as Hl.
    rewrite Nat.sub_0_r in Hl. by apply Hl. }
  apply Hfold. unfold unsafe, quote. repeat constructor.
Qed.

Lemma Trim_length (s cutset : string) :
  String.length (strings_Trim s cutset) ≤ String.length s.
Proof.
  unfold strings_Trim.
  destruct (TrimRight_prefix s cutset) as [b Hb].
  destruct (TrimLeft_suffix (strings_TrimRight s cutset) cutset) as [a Ha].
  apply (f_equal String.length) in Hb, Ha.
  rewrite str_app_length in Hb, Ha. lia.
Qed.

(** Sanitizing never makes a name longer, except when it substitutes the
    default name. *)
Theorem sanitizeFilename_length (s : string) :
  sanitizeFilename s = default_name ∨
  String.length (sanitizeFilename s) ≤ String.length s.
Proof.
  destruct (sanitizeFilename_cases s) as [[_ Hs] | [_ Hs]]; [by left |].
  right. rewrite Hs. etrans; [apply Trim_length | apply replace_unsafe_length].
Qed.

(** ** [getUniqueFilename] *)

(** The counter is printed with digits and, below zero, a minus sign. *)
Lemma pretty_N_go_digits (x : N) (s : string) :
  all_in "0123456789-" s = true → all_in "0123456789-" (pretty_N_go x s) = true.
Proof.
  revert s. induction (N.lt_wf_0 x) as [x _ IH]; intros s Hs.
  assert (x = 0 ∨ 0 < x)%N as [-> | Hx] by lia.
  - by rewrite pretty_N_go_0.
  - rewrite pretty_N_go_step by done. apply IH.
    + apply N.div_lt; lia.
    + cbn [all_in]. rewrite Hs, andb_true_r.
      unfold pretty_N_char. by repeat case_match.
Qed.

Lemma pretty_Z_digits (i : Z) : all_in "0123456789-" (pretty i) = true.
Proof.
  destruct i as [|p|p]; [done | |].
  - by apply pretty_N_go_digits.
  - change (pretty (Z.neg p)) with ("-" +:+ pretty_N_go (N.pos p) "").
    cbn [String.append all_in]. by rewrite pretty_N_go_digits.
Qed.

Lemma all_in_last (cutset s : string) (c : ascii) :
  all_in cutset s = true → str_last s = Some c → in_cutset cutset c = true.
Proof.
  induction s as [|x s IH]; [done |]. cbn [all_in str_last].
  intros [Hx Hs]%andb_true_iff. destruct s; [by intros [= <-] | by apply IH].
Qed.

Lemma str_head_app (a b : string) :
  a ≠ "" → str_head (a +:+ b) = str_head a.
Proof. by destruct a. Qed.

Lemma no_dot_no_dotdot (s : string) :
  str_mem "." s = false → strings_Contains s ".." = false.
Proof.
  intros H. apply not_true_is_false. intros (a & b & ->)%Contains_spec.
  rewrite !str_mem_app in H.
  assert (str_mem "." ".." = true) as E by reflexivity.
  rewrite E in H. by rewrite orb_true_l, orb_true_r in H.
Qed.

(** Two strings without adjacent dots give one, unless the first ends and
    the second begins with a dot. *)
Lemma Contains_dotdot_app (a b : string) :
  strings_Contains a ".." = false → strings_Contains b ".." = false →
  str_last a ≠ Some "."%char ∨ str_head b ≠ Some "."%char →
  strings_Contains (a +:+ b) ".." = false.
Proof.
  intros Ha Hb Hedge. induction a as [|x a IH]; [done |].
  cbn [strings_Contains] in Ha. apply orb_false_iff in Ha as [Hp Ha].
  cbn [String.append strings_Contains].
  destruct a as [|y a].
  - cbn [String.append]. rewrite Hb, orb_false_r.
    cbn [strings_HasPrefix]. apply andb_false_iff.
    destruct Hedge as [Hx | Hy].
    + left. apply Ascii.eqb_neq. simpl in Hx. congruence.
    + right. destruct b as [|y b]; [done |]. cbn [strings_HasPrefix].
      rewrite andb_true_r. apply Ascii.eqb_neq. simpl in Hy. congruence.
  - rewrite IH by done. by rewrite orb_false_r.
Qed.

(** A candidate name of a sanitized name needs no sanitizing. *)
Lemma candidate_sanitized (filename : string) (i : Z) :
  sanitizeFilename (candidate (sanitizeFilename filename) i)
  = candidate (sanitizeFilename filename) i.
Proof.
  set (name := sanitizeFilename filename).
  pose proof (base_ext_join name) as Hjoin.
  unfold candidate, Sprintf_s_d_s.
  set (ext := filepath_Ext name) in *.
  set (base := strings_TrimSuffix name ext) in *.
  destruct (sanitizeFilename_edges filename) as [Hh Hl]. fold name in Hh, Hl.
  assert (∀ u, u ∈ unsafe → strings_Contains name u = false) as Hclean
    by (intros u Hu; by apply sanitizeFilename_clean).
  pose proof (pretty_Z_digits i) as Hdigits.
  apply sanitizeFilename_fixed.
  - intros u Hu.
    destruct (decide (u = "..")) as [-> | Hne].
    + specialize (Hclean ".." Hu). rewrite <- Hjoin in Hclean.
      apply Contains_app_false in Hclean as [Hb He].
      apply Contains_dotdot_app; [done | | by right].
      apply (Contains_dotdot_app "_"); [done | | by left].
      apply Contains_dotdot_app; [| done |].
      * apply no_dot_no_dotdot. by apply (all_in_mem "0123456789-").
      * left. intros Hlast. by apply (all_in_last _ _ _ Hdigits) in Hlast.
    + assert (∃ c, u = String c "" ∧ c ≠ "_"%char ∧
                   in_cutset "0123456789-" c = false) as (c & -> & Hc & Hd).
      { unfold unsafe, quote in Hu.
        repeat (apply elem_of_cons in Hu as [-> | Hu]);
          try (by apply elem_of_nil in Hu); try done;
          (eexists; split; [reflexivity |]; split; [discriminate | reflexivity]). }
      specialize (Hclean _ Hu). rewrite <- Hjoin, Contains_single, str_mem_app in Hclean.
      apply orb_false_iff in Hclean as [Hb He].
      rewrite Contains_single, !str_mem_app, Hb, He.
      rewrite (all_in_mem "0123456789-" (pretty i) c Hdigits Hd).
      simpl. rewrite !orb_false_r. apply Ascii.eqb_neq. congruence.
  - by destruct base.
  - destruct (decide (base = "")) as [Hb | Hb].
    + rewrite Hb. intros c [= <-]. reflexivity.
    + rewrite str_head_app by done. rewrite <- Hjoin in Hh.
      by rewrite str_head_app in Hh.
  - destruct (decide (ext = "")) as [He | He].
    + rewrite He, str_app_nil_r.
      rewrite str_last_app by done.
      destruct (pretty i) as [|d t] eqn:Ep.
      * intros c [= <-]. reflexivity.
      * rewrite (str_last_app "_") by done. intros c Hc.
        apply (all_in_last _ _ _ Hdigits) in Hc.
        destruct (in_cutset " ." c) eqn:E; [| done].
        simpl in E, Hc. rewrite orb_false_r in E.
        apply orb_true_iff in E as [->%Ascii.eqb_eq | ->%Ascii.eqb_eq];
          discriminate Hc.
    + rewrite <- Hjoin in Hl. rewrite str_last_app in Hl by done.
      rewrite <- !str_app_assoc. by rewrite str_last_app.
Qed.

(** What a finished probe loop has done, whatever the fuel and the counter. *)
Lemma probe_frame (fuel : nat) (dir base ext : string) (i : Z)
      (w w' : World) (r : string) :
  probe fuel dir base ext i w = Some (r, w') →
  (∃ j : Z, r = Sprintf_s_d_s base j ext) ∧
  fs w !! filepath_Join dir r = None ∧
  fs w' = fs w ∧ rename_errors w' = rename_errors w ∧ logs w' = logs w ∧
  ∃ stats, calls w' = calls w ++ stats ∧ Forall (λ c, is_stat c = true) stats.
Proof.
  revert i w. induction fuel as [|fuel IH]; intros i w H; [done |].
  rewrite probe_step in H. cbv zeta in H.
  destruct (os_IsNotExist
              (stat_result w (filepath_Join dir (Sprintf_s_d_s base i ext))))
    eqn:E.
  - apply stat_result_free in E as [_ E].
    injection H as <- <-. split_and!; try done; [by exists i |].
    exists [SysStat (filepath_Join dir (Sprintf_s_d_s base i ext))].
    split; [done | by repeat constructor].
  - apply IH in H as (Hj & Hfree & Hfs & Hre & Hlog & stats & Hc & Hstats).
    simpl in *. split_and!; try done.
    exists (SysStat (filepath_Join dir (Sprintf_s_d_s base i ext)) :: stats).
    split; [by rewrite Hc, <- app_assoc | by constructor].
Qed.

Lemma getUniqueFilename_returns (fuel : nat) (dir filename : string)
      (w w' : World) (final : string) :
  getUniqueFilename fuel dir filename w = Some (final, w') →
  (final = sanitizeFilename filename
   ∨ ∃ j : Z, final = candidate (sanitizeFilename filename) j) ∧
  fs w !! filepath_Join dir final = None ∧
  fs w' = fs w ∧ rename_errors w' = rename_errors w ∧ logs w' = logs w ∧
  ∃ stats, calls w' = calls w ++ stats ∧ Forall (λ c, is_stat c = true) stats.
Proof.
  destruct (os_IsNotExist
              (stat_result w (filepath_Join dir (sanitizeFilename filename))))
    eqn:E.
  - rewrite getUniqueFilename_free by done. intros [= <- <-].
    apply stat_result_free in E as [_ E].
    split_and!; try done; [by left |].
    exists [SysStat (filepath_Join dir (sanitizeFilename filename))].
    split; [done | by repeat constructor].
  - rewrite getUniqueFilename_taken by done. intros H.
    apply probe_frame in H as ([j Hj] & Hfree & Hfs & Hre & Hlog & stats & Hc & Hs).
    simpl in *. split_and!; try done; [right; by exists j |].
    exists (SysStat (filepath_Join dir (sanitizeFilename filename)) :: stats).
    split; [by rewrite Hc, <- app_assoc | by constructor].
Qed.

Lemma getUniqueFilename_final_fixed (fuel : nat) (dir filename : string)
      (w w' : World) (final : string) :
  getUniqueFilename fuel dir filename w = Some (final, w') →
  sanitizeFilename final = final.
Proof.
  intros H. apply getUniqueFilename_returns in H as [Hshape _].
  destruct Hshape as [-> | [j ->]].
  - apply sanitizeFilename_fixed.
    + intros u Hu. by apply sanitizeFilename_clean.
    + apply sanitizeFilename_nonempty.
    + apply sanitizeFilename_edges.
    + apply sanitizeFilename_edges.
  - apply candidate_sanitized.
Qed.

(** The name [getUniqueFilename] returns, with or without a counter, is a
    sanitized name: sanitizing it again changes nothing, so it holds no path
    separator and no [..], and the path made of it stays in the directory. *)
Theorem getUniqueFilename_name_sanitized (fuel : nat) (dir filename : string)
        (w w' : World) (final : string) :
  getUniqueFilename fuel dir filename w = Some (final, w') →
  sanitizeFilename final = final ∧
  strings_Contains final "/" = false ∧
  strings_Contains final "\" = false ∧
  strings_Contains final ".." = false.
Proof.
  intros H. pose proof (getUniqueFilename_final_fixed _ _ _ _ _ _ H) as Hfix.
  split; [done |]. rewrite <- Hfix.
  split_and!; apply sanitizeFilename_clean; unfold unsafe;
    repeat first [apply list_elem_of_here | apply list_elem_of_further].
Qed.

Lemma getUniqueFilename_name_sanitized_witness :
  ∃ w',
    getUniqueFilename 2 "uploads" "../report.txt"
      (world_of {[ "uploads/__report.txt" := "first" ]})
    = Some ("__report_1.txt", w') ∧
    sanitizeFilename "__report_1.txt" = "__report_1.txt".
Proof.
  eexists. split; [vm_compute; reflexivity |].
  eapply (getUniqueFilename_name_sanitized 2 "uploads" "../report.txt"
            (world_of {[ "uploads/__report.txt" := "first" ]})).
  vm_compute. reflexivity.
Defined.

(** [getUniqueFilename] only looks: it makes [os.Stat] calls and nothing
    else, and leaves the files and the log as they are.  The name it returns
    is free but not reserved: no file of that name has been created. *)
Theorem getUniqueFilename_only_looks (fuel : nat) (dir filename : string)
        (w w' : World) (final : string) :
  getUniqueFilename fuel dir filename w = Some (final, w') →
  fs w' = fs w ∧ logs w' = logs w ∧ rename_errors w' = rename_errors w ∧
  fs w' !! filepath_Join dir final = None ∧
  ∃ stats, calls w' = calls w ++ stats ∧ Forall (λ c, is_stat c = true) stats.
Proof.
  intros H. apply getUniqueFilename_returns in H
    as (_ & Hfree & Hfs & Hre & Hlog & Hstats).
  split_and!; try done. by rewrite Hfs.
Qed.

Lemma getUniqueFilename_only_looks_witness :
  ∃ w',
    getUniqueFilename 2 "uploads" "report.txt"
      (world_of {[ "uploads/report.txt" := "first" ]})
    = Some ("report_1.txt", w') ∧
    fs w' = fs (world_of {[ "uploads/report.txt" := "first" ]}).
Proof.
  eexists. split; [vm_compute; reflexivity |].
  eapply (getUniqueFilename_only_looks 2 "uploads" "report.txt"
            (world_of {[ "uploads/report.txt" := "first" ]})).
  vm_compute. reflexivity.
Defined.

(** The cost of [getUniqueFilename] where [os.Stat] can look up the names it
    is asked for: given that, more fuel than files, and fewer files than
    [int] has positive values, it returns after at most one [os.Stat] call
    per file of the world and one more. *)
Theorem getUniqueFilename_cost (fuel : nat) (dir filename : string) (w : World) :
  (Z.of_nat (size (fs w)) < int_max)%Z → size (fs w) < fuel →
  stat_clear w dir (sanitizeFilename filename) →
  ∃ (final : string) (w' : World) (stats : list Syscall),
    getUniqueFilename fuel dir filename w = Some (final, w') ∧
    calls w' = calls w ++ stats ∧
    Forall (λ c, is_stat c = true) stats ∧
    length stats ≤ S (size (fs w)).
Proof.
  intros Hmax Hfuel Hclear.
  destruct (getUniqueFilename_result fuel dir filename w Hmax Hfuel Hclear)
    as [[Hnone Hrun] |
        [Hsome (k & w' & Hrun & Hk & Hbelow & _ & _ & _ & Hc)]].
  - eexists _, _, [_]. split_and!; [exact Hrun | done | by repeat constructor |].
    simpl. lia.
  - eexists _, w', _. split_and!; [exact Hrun | exact Hc | |].
    + constructor; [done |]. unfold probe_calls.
      apply Forall_fmap, Forall_forall. by intros j _.
    + unfold probe_calls. cbn [length]. rewrite length_fmap, length_seq.
      set (name := sanitizeFilename filename) in *.
      set (f := λ j : nat, filepath_Join dir (candidate name (1 + Z.of_nat j))).
      assert (Inj (=) (=) f) as Hinj.
      { intros a b Hab. apply filepath_Join_inj, Sprintf_inj in Hab. lia. }
      assert (size (list_to_set (C := gset string)
                      (filepath_Join dir name :: (f <$> seq 0 k)))
              ≤ size (dom (fs w))) as Hle.
      { apply subseteq_size. intros p Hp.
        apply elem_of_list_to_set, elem_of_cons in Hp as [-> | Hp].
        - by apply elem_of_dom.
        - apply list_elem_of_fmap in Hp as (j & -> & Hj).
          apply elem_of_seq in Hj. apply elem_of_dom, Hbelow. lia. }
      rewrite size_list_to_set in Hle.
      * cbn [length] in Hle. rewrite length_fmap, length_seq, size_dom in Hle.
        lia.
      * constructor; [| apply NoDup_fmap_2, NoDup_seq; done].
        intros (j & Hj & _)%list_elem_of_fmap.
        apply filepath_Join_inj in Hj. symmetry in Hj.
        by apply candidate_not_name in Hj.
Qed.

Lemma getUniqueFilename_cost_witness :
  (Z.of_nat (size (fs (world_of {[ "uploads/report.txt" := "first" ]})))
   < int_max)%Z ∧
  size (fs (world_of {[ "uploads/report.txt" := "first" ]})) < 2 ∧
  stat_clear (world_of {[ "uploads/report.txt" := "first" ]}) "uploads"
             (sanitizeFilename "report.txt") ∧
  ∃ final w' stats,
    getUniqueFilename 2 "uploads" "report.txt"
      (world_of {[ "uploads/report.txt" := "first" ]}) = Some (final, w') ∧
    calls w' = calls (world_of {[ "uploads/report.txt" := "first" ]}) ++ stats ∧
    length stats ≤ 2.
Proof.
  split; [vm_compute; reflexivity |]. split; [vm_compute; lia |].
  split; [stat_clear_by_cases 1 |].
  destruct (getUniqueFilename_cost 2 "uploads" "report.txt"
              (world_of {[ "uploads/report.txt" := "first" ]}))
    as (final & w' & stats & Hrun & Hc & _ & Hlen).
  - vm_compute; reflexivity.
  - vm_compute; lia.
  - stat_clear_by_cases 1.
  - by exists final, w', stats.
Defined.

Lemma sanitizeFilename_no_separator (s : string) :
  str_mem "/" (sanitizeFilename s) = false.
Proof.
  rewrite <- Contains_single. apply sanitizeFilename_clean.
  unfold unsafe. by left.
Qed.

(** A byte of a name is in each of its candidates. *)
Lemma candidate_mem (c : ascii) (name : string) (i : Z) :
  str_mem c name = true → str_mem c (candidate name i) = true.
Proof.
  rewrite <- (base_ext_join name) at 1. unfold candidate, Sprintf_s_d_s.
  rewrite !str_mem_app.
  intros [H | H]%orb_true_iff; rewrite H; by rewrite ?orb_true_r.
Qed.

(** A sanitized name that the file system refuses for its form, being longer
    than 255 bytes or holding a NUL byte, is refused with all its
    candidates. *)
Lemma refused_form_spreads (dir filename : string) :
  255 < String.length (sanitizeFilename filename)
  ∨ str_mem "000" (sanitizeFilename filename) = true →
  is_Some (name_limits (filepath_Join dir (sanitizeFilename filename))) ∧
  ∀ j : Z, is_Some (name_limits
                      (filepath_Join dir
                         (candidate (sanitizeFilename filename) j))).
Proof.
  intros Hform.
  assert (∀ name, str_mem "/" name = false →
            255 < String.length name ∨ str_mem "000" name = true →
            is_Some (name_limits (filepath_Join dir name))) as Href.
  { intros name Hsep [Hlen | Hnul].
    - rewrite <- (str_app_nil_r name). by apply name_limits_long.
    - unfold name_limits, filepath_Join.
      rewrite !str_mem_app, Hnul, !orb_true_r. by eexists. }
  split.
  - apply Href; [apply sanitizeFilename_no_separator | done].
  - intros j. apply Href.
    + rewrite <- candidate_sanitized. apply sanitizeFilename_no_separator.
    + destruct Hform as [Hlen | Hnul].
      * left. pose proof (candidate_length (sanitizeFilename filename) j). lia.
      * right. by apply candidate_mem.
Qed.

Lemma stat_result_refused (w : World) (path : string) :
  is_Some (stat_failure w path) → os_IsNotExist (stat_result w path) = false.
Proof. intros [msg H]. unfold stat_result. by rewrite H. Qed.

(** A filename that [getUniqueFilename] never resolves: on a file system
    with the limits of [name_limits], for a filename whose sanitized form is
    longer than 255 bytes or holds a NUL byte, [getUniqueFilename] does not
    return, whatever the files of the directory and whatever the fuel. *)
Theorem getUniqueFilename_refused_name (fuel : nat) (dir filename : string)
        (w : World) :
  stat_failure w = name_limits →
  255 < String.length (sanitizeFilename filename)
  ∨ str_mem "000" (sanitizeFilename filename) = true →
  getUniqueFilename fuel dir filename w = None.
Proof.
  intros Hsf Hform.
  destruct (refused_form_spreads dir filename Hform) as [Hname Hcand].
  apply getUniqueFilename_never_returns.
  - apply stat_result_refused. by rewrite Hsf.
  - intros j. rewrite Hsf. apply Hcand.
Qed.

Lemma getUniqueFilename_refused_name_witness :
  stat_failure world_255 = name_limits ∧
  (255 < String.length (sanitizeFilename name_256)
   ∨ str_mem "000" (sanitizeFilename name_256) = true) ∧
  getUniqueFilename 1000 "uploads" name_256 world_255 = None.
Proof.
  split; [reflexivity |]. split; [left; vm_compute; lia |].
  apply getUniqueFilename_refused_name; [reflexivity | left; vm_compute; lia].
Defined.

(** ** [handleCompletedUploads] *)

(** One pass of the loop, whenever it returns: it has made [os.Stat] calls
    and at most one [os.Rename], of the upload's data file to a sanitized,
    free name of the uploads directory, and the files are as before or the
    data file has moved to that name. *)
Lemma handle_step (uploadsDir : string) (fuel : nat) (event : HookEvent)
      (w w' : World) :
  handleCompletedUpload uploadsDir fuel event w = Some (tt, w') →
  ∃ stats : list Syscall,
    Forall (λ c, is_stat c = true) stats ∧
    ((fs w' = fs w ∧ calls w' = calls w ++ stats)
     ∨ ∃ final : string,
         sanitizeFilename final = final ∧
         fs w !! filepath_Join uploadsDir final = None ∧
         calls w' = calls w ++ stats ++
           [SysRename (filepath_Join uploadsDir (ID (Upload event)))
                      (filepath_Join uploadsDir final)] ∧
         (fs w' = fs w
          ∨ ∃ data : string,
              fs w !! filepath_Join uploadsDir (ID (Upload event)) = Some data ∧
              fs w' = <[filepath_Join uploadsDir final := data]>
                        (delete (filepath_Join uploadsDir (ID (Upload event)))
                                (fs w)))).
Proof.
  destruct (decide (originalFilename_of event = "")) as [Hempty | Hname].
  { rewrite handle_no_filename by done. intros [= <-].
    exists []. split; [done |]. left. by rewrite app_nil_r. }
  destruct (getUniqueFilename fuel uploadsDir (originalFilename_of event)
              (add_log (log_finished (ID (Upload event))
                                     (originalFilename_of event)) w))
    as [[final w2]|] eqn:Hrun.
  2:{ by rewrite handle_stuck. }
  pose proof (getUniqueFilename_final_fixed _ _ _ _ _ _ Hrun) as Hfix.
  apply getUniqueFilename_returns in Hrun as Hret.
  destruct Hret as (_ & Hfree & Hfs & Hre & Hlog & stats & Hc & Hstats).
  simpl in Hfree, Hfs, Hc.
  rewrite (handle_with_filename uploadsDir fuel event w w2 final Hname Hrun).
  cbv zeta. rewrite Hfs.
  assert (Forall (λ c, is_stat c = true)
            (stats ++ [SysStat (filepath_Join uploadsDir (ID (Upload event)))]))
    as Hstats' by (apply Forall_app; split; [done | by repeat constructor]).
  destruct (stat_result w2 (filepath_Join uploadsDir (ID (Upload event))))
    as [err|].
  - intros [= <-].
    exists (stats ++ [SysStat (filepath_Join uploadsDir (ID (Upload event)))]).
    split; [done |].
    left. split; [done |]. simpl. by rewrite Hc, <- app_assoc.
  - destruct (rename_errors w2) as [|[e|] rest];
      destruct (fs w !! filepath_Join uploadsDir (ID (Upload event)))
        as [data|] eqn:Hdata;
      intros [= <-];
      eexists; (split; [exact Hstats' |]); right; exists final;
      (split_and!; [done | done | simpl; rewrite Hc; by rewrite <- !app_assoc |]);
      first [ by left | right; by exists data ].
Qed.

Lemma rename_size (m : gmap string string) (old new data : string) :
  m !! old = Some data → m !! new = None →
  size (<[new := data]> (delete old m)) = size m.
Proof.
  intros Hold Hnew.
  rewrite map_size_insert_None.
  - rewrite map_size_delete_Some by done.
    assert (size m ≠ 0) by (by apply (map_size_ne_0_lookup_2 m old)).
    lia.
  - rewrite lookup_delete_ne; [done | congruence].
Qed.

Lemma handle_step_size (uploadsDir : string) (fuel : nat) (event : HookEvent)
      (w w' : World) :
  handleCompletedUpload uploadsDir fuel event w = Some (tt, w') →
  size (fs w') = size (fs w).
Proof.
  intros H. apply handle_step in H
    as (stats & _ & [[-> _] | (final & _ & Hfree & _ & [-> | (data & Hd & ->)])]);
    try done.
  by apply rename_size.
Qed.

Lemma handle_step_stat_failure (uploadsDir : string) (fuel : nat)
      (event : HookEvent) (w w' : World) :
  handleCompletedUpload uploadsDir fuel event w = Some (tt, w') →
  stat_failure w' = stat_failure w.
Proof.
  destruct (decide (originalFilename_of event = "")) as [Hempty | Hname].
  { rewrite handle_no_filename by done. by intros [= <-]. }
  destruct (getUniqueFilename fuel uploadsDir (originalFilename_of event)
              (add_log (log_finished (ID (Upload event))
                                     (originalFilename_of event)) w))
    as [[final w2]|] eqn:Hrun.
  2:{ by rewrite handle_stuck. }
  apply getUniqueFilename_stat_failure in Hrun as Hsf. simpl in Hsf.
  rewrite (handle_with_filename uploadsDir fuel event w w2 final Hname Hrun).
  cbv zeta.
  destruct (stat_result w2 (filepath_Join uploadsDir (ID (Upload event))));
    [by intros [= <-] |].
  destruct (rename_errors w2) as [|[e|] rest];
    destruct (fs w2 !! filepath_Join uploadsDir (ID (Upload event)));
    by intros [= <-].
Qed.

Lemma stat_clear_same (w w' : World) (dir name : string) :
  stat_failure w' = stat_failure w → size (fs w') = size (fs w) →
  stat_clear w dir name → stat_clear w' dir name.
Proof.
  intros Hsf Hsize [Hname Hcand]. split; [by rewrite Hsf |].
  intros i Hi. rewrite Hsf. apply Hcand. by rewrite <- Hsize.
Qed.

(** The finalizer loses nothing: whenever the loop returns, there are as
    many files as before, every content that was stored is still stored
    under some name, and a file that is not the data file of one of the
    handled uploads is where it was, with the content it had. *)
Theorem handleCompletedUploads_keeps_contents (uploadsDir : string)
        (fuel : nat) (events : list HookEvent) (w w' : World) :
  handleCompletedUploads uploadsDir fuel events w = Some (tt, w') →
  size (fs w') = size (fs w) ∧
  (∀ path data : string,
     fs w !! path = Some data → ∃ path', fs w' !! path' = Some data) ∧
  (∀ path data : string,
     fs w !! path = Some data →
     path ∉ (λ ev, filepath_Join uploadsDir (ID (Upload ev))) <$> events →
     fs w' !! path = Some data).
Proof.
  revert w. induction events as [|ev events IH]; intros w H.
  { injection H as <-. split_and!; [done | by eauto | done]. }
  cbn [handleCompletedUploads] in H. unfold mbind, M_bind in H.
  destruct (handleCompletedUpload uploadsDir fuel ev w) as [[[] w1]|] eqn:E;
    [| done].
  apply IH in H as (Hsize & Hkeep & Hsame).
  pose proof (handle_step_size _ _ _ _ _ E) as Hsize1.
  apply handle_step in E
    as (stats & _ & [[Hfs _] | (final & _ & Hfree & _ & [Hfs | (d & Hd & Hfs)])]).
  - rewrite Hfs in *. split_and!; [done | done |].
    intros path data Hp Hnot. apply Hsame; [done |].
    intros Hin. apply Hnot. by right.
  - rewrite Hfs in *. split_and!; [done | done |].
    intros path data Hp Hnot. apply Hsame; [done |].
    intros Hin. apply Hnot. by right.
  - split_and!; [congruence | |].
    + intros path data Hp.
      destruct (decide (path = filepath_Join uploadsDir (ID (Upload ev))))
        as [-> | Hne].
      * apply (Hkeep (filepath_Join uploadsDir final)).
        rewrite Hfs, lookup_insert_eq. congruence.
      * apply (Hkeep path). rewrite Hfs, lookup_insert_ne by congruence.
        by rewrite lookup_delete_ne.
    + intros path data Hp Hnot. apply Hsame.
      * rewrite Hfs, lookup_insert_ne by congruence.
        rewrite lookup_delete_ne; [done |].
        intros <-. apply Hnot. by left.
      * intros Hin. apply Hnot. by right.
Qed.

Lemma handleCompletedUploads_keeps_contents_witness :
  ∃ w',
    handleCompletedUploads "uploads" 3
      [event_of "A" "report.txt"; event_of "B" "report.txt"]
      (world_of {[ "uploads/A" := "first"; "uploads/B" := "second";
                   "uploads/A.info" := "{}" ]})
    = Some (tt, w') ∧
    size (fs w') = 3 ∧
    fs w' !! "uploads/A.info" = Some "{}".
Proof.
  eexists. split; [vm_compute; reflexivity |].
  edestruct (handleCompletedUploads_keeps_contents "uploads" 3
              [event_of "A" "report.txt"; event_of "B" "report.txt"]
              (world_of {[ "uploads/A" := "first"; "uploads/B" := "second";
                           "uploads/A.info" := "{}" ]}))
    as (Hsize & _ & Hsame).
  - vm_compute. reflexivity.
  - split; [exact Hsize |].
    apply Hsame; [reflexivity |]. vm_compute.
    intros H. repeat (apply elem_of_cons in H as [H | H]; [discriminate H |]).
    by apply elem_of_nil in H.
Defined.

(** The loop finishes where [os.Stat] can look up the names it is asked for:
    given that for the name of every event, more fuel than files, and fewer
    files than [int] has positive values, the loop handles any finite
    sequence of completion events to the end, since no pass changes the
    number of files or what [os.Stat] can look up. *)
Theorem handleCompletedUploads_finishes (uploadsDir : string) (fuel : nat)
        (events : list HookEvent) (w : World) :
  (Z.of_nat (size (fs w)) < int_max)%Z → size (fs w) < fuel →
  Forall (λ ev, stat_clear w uploadsDir
                  (sanitizeFilename (originalFilename_of ev))) events →
  ∃ w' : World,
    handleCompletedUploads uploadsDir fuel events w = Some (tt, w') ∧
    size (fs w') = size (fs w).
Proof.
  revert w. induction events as [|ev events IH]; intros w Hmax Hfuel Hclear.
  { by exists w. }
  apply Forall_cons in Hclear as [Hev Hclear].
  assert (∃ w1, handleCompletedUpload uploadsDir fuel ev w = Some (tt, w1))
    as [w1 E].
  { destruct (decide (originalFilename_of ev = "")) as [Hempty | Hname].
    - rewrite handle_no_filename by done. by eexists.
    - destruct (getUniqueFilename_frame fuel uploadsDir (originalFilename_of ev)
                  (add_log (log_finished (ID (Upload ev))
                                         (originalFilename_of ev)) w))
        as (final & w2 & stats & Hrun & _); [done | done | done |].
      rewrite (handle_with_filename uploadsDir fuel ev w w2 final Hname Hrun).
      cbv zeta.
      destruct (stat_result w2 (filepath_Join uploadsDir (ID (Upload ev))));
        [by eexists |].
      destruct (rename_errors w2) as [|[e|] rest];
        destruct (fs w2 !! filepath_Join uploadsDir (ID (Upload ev)));
        by eexists. }
  pose proof (handle_step_size _ _ _ _ _ E) as Hsize1.
  pose proof (handle_step_stat_failure _ _ _ _ _ E) as Hsf1.
  destruct (IH w1) as (w' & Hrun & Hsize);
    [by rewrite Hsize1 | by rewrite Hsize1 | |].
  { eapply Forall_impl; [exact Hclear |].
    intros e He. by apply (stat_clear_same w w1). }
  exists w'. split; [| congruence].
  rewrite (loop_continues uploadsDir fuel ev events w w1 E). exact Hrun.
Qed.

Lemma handleCompletedUploads_finishes_witness :
  (Z.of_nat (size (fs (world_of {[ "uploads/A" := "first" ]}))) < int_max)%Z ∧
  size (fs (world_of {[ "uploads/A" := "first" ]})) < 2 ∧
  Forall (λ ev, stat_clear (world_of {[ "uploads/A" := "first" ]}) "uploads"
                  (sanitizeFilename (originalFilename_of ev)))
         [event_of "A" "a.txt"; event_of "A" "a.txt"; event_of "B" "b.txt"] ∧
  ∃ w',
    handleCompletedUploads "uploads" 2
      [event_of "A" "a.txt"; event_of "A" "a.txt"; event_of "B" "b.txt"]
      (world_of {[ "uploads/A" := "first" ]}) = Some (tt, w').
Proof.
  assert (Forall (λ ev, stat_clear (world_of {[ "uploads/A" := "first" ]})
                          "uploads" (sanitizeFilename (originalFilename_of ev)))
            [event_of "A" "a.txt"; event_of "A" "a.txt"; event_of "B" "b.txt"])
    as Hclear by (repeat constructor; stat_clear_by_cases 1).
  split; [vm_compute; reflexivity |]. split; [vm_compute; lia |].
  split; [exact Hclear |].
  destruct (handleCompletedUploads_finishes "uploads" 2
              [event_of "A" "a.txt"; event_of "A" "a.txt"; event_of "B" "b.txt"]
              (world_of {[ "uploads/A" := "first" ]}))
    as (w' & Hrun & _).
  - vm_compute; reflexivity.
  - vm_compute; lia.
  - exact Hclear.
  - by exists w'.
Defined.

(** One filename stops the finalizer for good: on a file system with the
    limits of [name_limits], a completion event whose filename has a
    sanitized form longer than 255 bytes or with a NUL byte is never
    passed, wherever it stands in the sequence of events; the loop handles
    none of the events behind it. *)
Theorem handleCompletedUploads_stuck_event (uploadsDir : string) (fuel : nat)
        (before rest : list HookEvent) (event : HookEvent) (w : World) :
  stat_failure w = name_limits →
  originalFilename_of event ≠ "" →
  255 < String.length (sanitizeFilename (originalFilename_of event))
  ∨ str_mem "000" (sanitizeFilename (originalFilename_of event)) = true →
  handleCompletedUploads uploadsDir fuel (before ++ event :: rest) w = None.
Proof.
  intros Hsf Hne Hform.
  destruct (refused_form_spreads uploadsDir (originalFilename_of event) Hform)
    as [Hname Hcand].
  revert w Hsf. induction before as [|ev before IH]; intros w Hsf;
    cbn [app handleCompletedUploads].
  - apply bind_None, handle_stuck; [done |].
    apply getUniqueFilename_never_returns.
    + apply stat_result_refused. simpl. by rewrite Hsf.
    + intros j. simpl. rewrite Hsf. apply Hcand.
  - destruct (handleCompletedUpload uploadsDir fuel ev w) as [[[] w1]|] eqn:E.
    + rewrite (bind_Some _ _ _ _ _ E). apply IH.
      rewrite <- Hsf. by apply handle_step_stat_failure in E.
    + by apply bind_None.
Qed.

Lemma handleCompletedUploads_stuck_event_witness :
  stat_failure (world_of {[ "uploads/A" := "first" ]}) = name_limits ∧
  originalFilename_of (event_of "B" name_256) ≠ "" ∧
  (255 < String.length (sanitizeFilename
                          (originalFilename_of (event_of "B" name_256)))
   ∨ str_mem "000" (sanitizeFilename
                      (originalFilename_of (event_of "B" name_256))) = true) ∧
  handleCompletedUploads "uploads" 1000
    ([event_of "A" "a.txt"] ++ event_of "B" name_256 :: [event_of "C" "c.txt"])
    (world_of {[ "uploads/A" := "first" ]}) = None.
Proof.
  split; [reflexivity |]. split; [by vm_compute |].
  split; [left; vm_compute; lia |].
  apply handleCompletedUploads_stuck_event;
    [reflexivity | by vm_compute | left; vm_compute; lia].
Defined.

Lemma renames_stats (stats : list Syscall) :
  Forall (λ c, is_stat c = true) stats → renames stats = [].
Proof.
  unfold renames. induction 1 as [|c stats Hc _ IH]; [done |].
  rewrite filter_cons_False by congruence. exact IH.
Qed.

Lemma renames_app (l1 l2 : list Syscall) :
  renames (l1 ++ l2) = renames l1 ++ renames l2.
Proof. apply filter_app. Qed.

(** A completion event that is delivered again after its upload has been
    promoted does no harm, where [os.Stat] can look up the names it is asked
    for: the second pass finds the data file gone, renames nothing and
    leaves every file as the first pass left it. *)
Theorem finalizer_redelivery (uploadsDir : string) (fuel : nat)
        (event : HookEvent) (w : World) (data : string) :
  originalFilename_of event ≠ "" →
  fs w !! filepath_Join uploadsDir (ID (Upload event)) = Some data →
  stat_failure w (filepath_Join uploadsDir (ID (Upload event))) = None →
  next_rename_error w = None →
  (Z.of_nat (size (fs w)) < int_max)%Z → size (fs w) < fuel →
  stat_clear w uploadsDir (sanitizeFilename (originalFilename_of event)) →
  ∃ w' w'' : World,
    handleCompletedUpload uploadsDir fuel event w = Some (tt, w') ∧
    handleCompletedUpload uploadsDir fuel event w' = Some (tt, w'') ∧
    fs w' !! filepath_Join uploadsDir (ID (Upload event)) = None ∧
    fs w'' = fs w' ∧
    renames (calls w'') = renames (calls w') ∧
    handleCompletedUploads uploadsDir fuel [event; event] w = Some (tt, w'').
Proof.
  intros Hname Hdata Hstat Hok Hmax Hfuel Hclear.
  destruct (getUniqueFilename_frame fuel uploadsDir (originalFilename_of event)
              (add_log (log_finished (ID (Upload event))
                                     (originalFilename_of event)) w))
    as (final & w2 & stats & Hrun & Hfree & Hfs & Hsf & Hre & Hlog & Hc & _);
    [done | done | done |].
  simpl in Hfree, Hfs, Hsf, Hre, Hlog, Hc.
  pose proof (handle_with_filename uploadsDir fuel event w w2 final Hname Hrun)
    as Hfirst.
  cbv zeta in Hfirst. unfold stat_result in Hfirst.
  rewrite Hsf, Hstat, Hfs, Hdata in Hfirst.
  unfold next_rename_error in Hok. rewrite <- Hre in Hok.
  set (old := filepath_Join uploadsDir (ID (Upload event))) in *.
  set (new := filepath_Join uploadsDir final) in *.
  assert (∃ w', handleCompletedUpload uploadsDir fuel event w = Some (tt, w') ∧
                fs w' = <[new := data]> (delete old (fs w))) as (w' & Hw' & Hfs').
  { destruct (rename_errors w2) as [|[e|] rest]; [| done |];
      eexists; (split; [exact Hfirst | done]). }
  assert (fs w' !! old = None) as Hgone.
  { rewrite Hfs', lookup_insert_ne by congruence. apply lookup_delete_eq. }
  assert (size (fs w') = size (fs w)) as Hsize
    by (rewrite Hfs'; by apply rename_size).
  pose proof (handle_step_stat_failure _ _ _ _ _ Hw') as Hsf'.
  destruct (getUniqueFilename_frame fuel uploadsDir (originalFilename_of event)
              (add_log (log_finished (ID (Upload event))
                                     (originalFilename_of event)) w'))
    as (final' & w3 & stats' & Hrun' & _ & Hfs3 & Hsf3 & _ & _ & Hc' & Hstats');
    [simpl; by rewrite Hsize | simpl; by rewrite Hsize
    | by apply (stat_clear_same w) |].
  simpl in Hfs3, Hsf3, Hc'.
  pose proof (handle_with_filename uploadsDir fuel event w' w3 final' Hname Hrun')
    as Hsecond.
  cbv zeta in Hsecond. fold old in Hsecond. unfold stat_result in Hsecond.
  rewrite Hsf3, Hsf', Hstat, Hfs3, Hgone in Hsecond.
  eexists w', _. split_and!; [done | exact Hsecond | done | done | |].
  - simpl. rewrite Hc', !renames_app, (renames_stats stats') by done.
    by rewrite !app_nil_r.
  - rewrite (loop_continues uploadsDir fuel event [event] w w' Hw').
    by rewrite (loop_continues uploadsDir fuel event [] w' _ Hsecond).
Qed.

Lemma finalizer_redelivery_witness :
  originalFilename_of (event_of "X" "a.txt") ≠ "" ∧
  fs (world_of {[ "uploads/X" := "0123456789" ]})
    !! filepath_Join "uploads" (ID (Upload (event_of "X" "a.txt")))
  = Some "0123456789" ∧
  stat_failure (world_of {[ "uploads/X" := "0123456789" ]})
    (filepath_Join "uploads" (ID (Upload (event_of "X" "a.txt")))) = None ∧
  next_rename_error (world_of {[ "uploads/X" := "0123456789" ]}) = None ∧
  stat_clear (world_of {[ "uploads/X" := "0123456789" ]}) "uploads"
    (sanitizeFilename (originalFilename_of (event_of "X" "a.txt"))) ∧
  ∃ w' w'',
    handleCompletedUpload "uploads" 2 (event_of "X" "a.txt")
      (world_of {[ "uploads/X" := "0123456789" ]}) = Some (tt, w') ∧
    handleCompletedUpload "uploads" 2 (event_of "X" "a.txt") w'
      = Some (tt, w'') ∧
    fs w'' = fs w'.
Proof.
  split; [by vm_compute |]. split; [reflexivity |].
  split; [vm_compute; reflexivity |]. split; [reflexivity |].
  split; [stat_clear_by_cases 1 |].
  destruct (finalizer_redelivery "uploads" 2 (event_of "X" "a.txt")
              (world_of {[ "uploads/X" := "0123456789" ]}) "0123456789")
    as (w' & w'' & H1 & H2 & _ & Hfs & _).
  - by vm_compute.
  - reflexivity.
  - vm_compute; reflexivity.
  - reflexivity.
  - vm_compute; reflexivity.
  - vm_compute; lia.
  - stat_clear_by_cases 1.
  - by exists w', w''.
Defined.

Lemma promotes_further (dir : string) (ev : HookEvent)
      (events : list HookEvent) (c : Syscall) :
  promotes dir events c → promotes dir (ev :: events) c.
Proof.
  intros (e & name & He & Hc & Hn). exists e, name. split_and!; try done.
  by right.
Qed.

(** Whenever the loop returns, each rename it has made moved the data file
    of one of the handled uploads to a sanitized name in the uploads
    directory, and there is at most one rename per event. *)
Theorem handleCompletedUploads_renames (uploadsDir : string) (fuel : nat)
        (events : list HookEvent) (w w' : World) :
  handleCompletedUploads uploadsDir fuel events w = Some (tt, w') →
  ∃ made : list Syscall,
    calls w' = calls w ++ made ∧
    Forall (promotes uploadsDir events) (renames made) ∧
    length (renames made) ≤ length events.
Proof.
  revert w. induction events as [|ev events IH]; intros w H.
  { injection H as <-. exists []. by rewrite app_nil_r. }
  cbn [handleCompletedUploads] in H. unfold mbind, M_bind in H.
  destruct (handleCompletedUpload uploadsDir fuel ev w) as [[[] w1]|] eqn:E;
    [| done].
  apply IH in H as (made & Hmade & Hprom & Hlen).
  assert (Forall (promotes uploadsDir (ev :: events)) (renames made)) as Hprom'.
  { eapply Forall_impl; [exact Hprom |]. intros c. apply promotes_further. }
  apply handle_step in E
    as (stats & Hstats & [[_ Hc] | (final & Hfix & _ & Hc & _)]).
  - exists (stats ++ made). split; [by rewrite Hmade, Hc, <- app_assoc |].
    rewrite renames_app, (renames_stats stats) by done.
    split; [done | simpl; lia].
  - exists ((stats ++ [SysRename (filepath_Join uploadsDir (ID (Upload ev)))
                                 (filepath_Join uploadsDir final)]) ++ made).
    split; [by rewrite Hmade, Hc, <- !app_assoc |].
    rewrite !renames_app, (renames_stats stats) by done.
    unfold renames at 1. rewrite filter_cons_True by done.
    rewrite filter_nil. cbn [app]. split; [| simpl; lia].
    constructor; [| done]. exists ev, final. split_and!; [by left | done | done].
Qed.

Lemma handleCompletedUploads_renames_witness :
  ∃ w',
    handleCompletedUploads "uploads" 2
      [event_of "X" "../a.txt"; event_of "Y" "b.txt"]
      (world_of {[ "uploads/X" := "0123456789" ]}) = Some (tt, w') ∧
    ∃ made,
      calls w' = calls (world_of {[ "uploads/X" := "0123456789" ]}) ++ made ∧
      length (renames made) ≤ 2.
Proof.
  eexists. split; [vm_compute; reflexivity |].
  edestruct (handleCompletedUploads_renames "uploads" 2
              [event_of "X" "../a.txt"; event_of "Y" "b.txt"]
              (world_of {[ "uploads/X" := "0123456789" ]}))
    as (made & Hmade & _ & Hlen).
  - vm_compute. reflexivity.
  - exists made. split; [exact Hmade | exact Hlen].
Defined.

Lemma handleCompletedUploads_in_order_witness :
  ∃ w',
    handleCompletedUploads "uploads" 2
      [event_of "X" "a.txt"; event_of "Y" "b.txt"]
      (world_of {[ "uploads/X" := "0123456789" ]}) = Some (tt, w') ∧
    ∃ new,
      logs w' = logs (world_of {[ "uploads/X" := "0123456789" ]}) ++ new ∧
      finished_records new = [log_finished "X" "a.txt"; log_finished "Y" "b.txt"].
Proof.
  eexists. split; [vm_compute; reflexivity |].
  edestruct (handleCompletedUploads_in_order "uploads" 2
              [event_of "X" "a.txt"; event_of "Y" "b.txt"]
              (world_of {[ "uploads/X" := "0123456789" ]}))
    as (new & Hnew & Hfin).
  - vm_compute. reflexivity.
  - exists new. split; [exact Hnew |]. rewrite Hfin. vm_compute. reflexivity.
Defined.

(** ** [altSvcMiddleware] *)

(** The middleware advertises HTTP/3 to the older protocols only.  With a
    wrapped handler that leaves the [Alt-Svc] header alone, the response to a
    request of protocol version below 3 carries exactly one [Alt-Svc] value,
    the one for the port, whatever values the header had before; a request
    of version 3 or more is served as if the middleware were not there. *)
Theorem altSvcMiddleware_advertises (next : Handler) (port : Z)
        (w : ResponseWriter) (r : Request) :
  (∀ w0 r0, Header (next w0 r0) !! "Alt-Svc" = Header w0 !! "Alt-Svc") →
  ((ProtoMajor r < 3)%Z →
   Header (altSvcMiddleware next port w r) !! "Alt-Svc"
   = Some [Sprintf_alt_svc port]) ∧
  ((3 ≤ ProtoMajor r)%Z → altSvcMiddleware next port w r = next w r).
Proof.
  intros Hnext. unfold altSvcMiddleware. split.
  - intros Hlt. apply Z.ltb_lt in Hlt. rewrite Hlt, Hnext.
    apply lookup_insert_eq.
  - intros Hge. by apply Z.ltb_ge in Hge as ->.
Qed.

Lemma altSvcMiddleware_advertises_witness :
  (∀ w0 r0, Header (silent_handler w0 r0) !! "Alt-Svc" = Header w0 !! "Alt-Svc") ∧
  (ProtoMajor (mkRequest 2 "/files/") < 3)%Z ∧
  Header (altSvcMiddleware silent_handler 8443
            (mkResponseWriter {[ "Alt-Svc" := ["h2"; "clear"] ]} None "")
            (mkRequest 2 "/files/")) !! "Alt-Svc"
  = Some [Sprintf_alt_svc 8443].
Proof.
  split; [done |]. split; [simpl; lia |].
  apply (altSvcMiddleware_advertises silent_handler 8443); [done | simpl; lia].
Defined.

(** The advertised value names the port: different ports give different
    [Alt-Svc] values. *)
Theorem Sprintf_alt_svc_inj (p q : Z) :
  Sprintf_alt_svc p = Sprintf_alt_svc q → p = q.
Proof.
  unfold Sprintf_alt_svc. intros H.
  apply (inj (String.append "h3=")) in H.
  apply (inj (String.append quote)) in H.
  apply (inj (String.append ":")) in H.
  rewrite <- !(str_app_assoc (pretty _)) in H.
  do 2 apply str_app_inv_tail in H. by apply (inj pretty) in H.
Qed.

Lemma Sprintf_alt_svc_inj_witness :
  Sprintf_alt_svc 8443 = Sprintf_alt_svc (8000 + 443) ∧
  8443%Z = (8000 + 443)%Z.
Proof.
  split; [reflexivity |]. apply Sprintf_alt_svc_inj. reflexivity.
Defined.
